(** * filter_ssm_documents: ARN parsing, runtime classification and the batch driver

    A shallow embedding of [filter_ssm_documents.py] and the properties of
    its three parts: the ARN parser ([parse_arn]), the document classifier
    ([has_outdated_python_runtime]) and the batch driver
    ([filter_ssm_documents]). *)

From Stdlib Require Import Ascii String ZArith Floats.SpecFloat.
From stdpp Require Import gmap strings list fin_maps.

Local Open Scope string_scope.
Local Open Scope list_scope.
Local Open Scope nat_scope.
Local Open Scope stdpp_scope.
#[local] Set Warnings "-register-all".

(** ** Python values

    What [json.loads] can return: [None], booleans, integers, floats,
    strings, lists and dictionaries with string keys. *)

Inductive pyval : Type :=
  | PyNone
  | PyBool (b : bool)
  | PyInt (z : Z)
  | PyFloat (f : spec_float)
  | PyStr (s : string)
  | PyList (l : list pyval)
  | PyDict (d : gmap string pyval).

(** Exceptions the program meets, with the part of Python's class
    hierarchy that its [except] clauses look at. *)

Inductive exn : Type :=
  | FileNotFoundError
  | PermissionError
  | OSError
  | NoCredentialsError
  | PartialCredentialsError
  | ClientError (code : option string)
  | JSONDecodeError
  | TypeError
  | RuntimeError (msg : string)
  | KeyboardInterrupt.

(** [isinstance(e, Exception)]: everything but [KeyboardInterrupt], which
    derives from [BaseException] only. *)
Definition is_Exception (e : exn) : bool :=
  match e with
  | KeyboardInterrupt => false
  | _ => true
  end.

(** [isinstance(e, IOError)]; [IOError] is an alias of [OSError]. *)
Definition is_IOError (e : exn) : bool :=
  match e with
  | FileNotFoundError | PermissionError | OSError => true
  | _ => false
  end.

(** [isinstance(e, (NoCredentialsError, PartialCredentialsError))]. *)
Definition is_credentials_error (e : exn) : bool :=
  match e with
  | NoCredentialsError | PartialCredentialsError => true
  | _ => false
  end.

(** The result of a Python expression: a value or a raised exception. *)
Inductive res (A : Type) : Type :=
  | Ok (a : A)
  | Raise (e : exn).
Arguments Ok {A} a.
Arguments Raise {A} e.

(** ** Strings

    A Python string is a [string]: a sequence of characters, here with
    codes below 256. *)

Definition LF : ascii := ascii_of_nat 10.

(** [str.isspace] on one character (code points below 256). *)
Definition py_isspace (c : ascii) : bool :=
  let n := nat_of_ascii c in
  (((9 <=? n) && (n <=? 13)) || ((28 <=? n) && (n <=? 32))
   || (n =? 133) || (n =? 160))%nat.

Fixpoint lstrip (s : string) : string :=
  match s with
  | String c s' => if py_isspace c then lstrip s' else s
  | EmptyString => EmptyString
  end.

(** Drops the trailing whitespace: a character stays when it is not
    whitespace or when something stays after it. *)
Fixpoint rstrip (s : string) : string :=
  match s with
  | String c s' =>
      match rstrip s' with
      | EmptyString => if py_isspace c then EmptyString else String c EmptyString
      | t => String c t
      end
  | EmptyString => EmptyString
  end.

(** [s.strip()] *)
Definition strip (s : string) : string := rstrip (lstrip s).

(** [s.startswith(p)], returning what follows the prefix. *)
Fixpoint strip_prefix (p s : string) : option string :=
  match p, s with
  | EmptyString, _ => Some s
  | String a p', String b s' =>
      if Ascii.eqb a b then strip_prefix p' s' else None
  | String _ _, EmptyString => None
  end.

(** ** Regular expressions

    The fragment of [re] that [ARN_REGEX] is written in: literal text and
    named groups holding one greedy repetition of a character class. *)

Module Re.

Inductive charclass : Type :=
  | NotChar (c : ascii)          (* [^c] *)
  | Dot.                         (* .  (no DOTALL: anything but a line feed) *)

Inductive quantifier : Type :=
  | Plus                         (* + *)
  | Star.                        (* * *)

Inductive node : Type :=
  | Lit (text : string)
  | Group (name : string) (cls : charclass) (q : quantifier).

Definition in_class (cls : charclass) (c : ascii) : bool :=
  match cls with
  | NotChar x => negb (Ascii.eqb c x)
  | Dot => negb (Ascii.eqb c LF)
  end.

Definition min_count_ok (q : quantifier) (text : string) : bool :=
  match q, text with
  | Plus, EmptyString => false
  | _, _ => true
  end.

(** Greedy repetition with backtracking: the class is matched as far as
    it goes, and the continuation [k] is tried on the longest run first,
    then on shorter ones. [acc] is the text matched so far. *)
Fixpoint greedy {A} (cls : charclass) (k : string → string → option A)
    (acc s : string) : option A :=
  match s with
  | String c s' =>
      if in_class cls c then
        match greedy cls k (acc +:+ String c EmptyString) s' with
        | Some r => Some r
        | None => k acc s
        end
      else k acc s
  | EmptyString => k acc s
  end.

(** Matches the nodes at the start of [s] (as [Pattern.match] does: the
    end of the string is not required) and returns the groups. *)
Fixpoint match_nodes (re : list node) (s : string)
    (groups : list (string * string)) : option (list (string * string)) :=
  match re with
  | [] => Some groups
  | Lit text :: re' =>
      match strip_prefix text s with
      | Some s' => match_nodes re' s' groups
      | None => None
      end
  | Group name cls q :: re' =>
      greedy cls
        (fun text rest =>
           if min_count_ok q text
           then match_nodes re' rest ((name, text) :: groups)
           else None)
        EmptyString s
  end.

Definition re_match (re : list node) (s : string) : option (list (string * string)) :=
  match_nodes re s [].

(** [match.group(name)] *)
Fixpoint group (name : string) (groups : list (string * string)) : option string :=
  match groups with
  | [] => None
  | (n, v) :: gs => if String.eqb n name then Some v else group name gs
  end.

End Re.

(** ** ARN parsing *)

Definition ARN_REGEX : list Re.node :=
  [ Re.Lit "arn:aws:ssm:";
    Re.Group "region" (Re.NotChar ":"%char) Re.Plus;
    Re.Lit ":";
    Re.Group "account_id" (Re.NotChar ":"%char) Re.Plus;
    Re.Lit ":document/";
    Re.Group "name" Re.Dot Re.Star ].

Definition parse_arn (arn_string : string) : option string * option string :=
  match Re.re_match ARN_REGEX arn_string with
  | Some m => (Re.group "region" m, Re.group "name" m)
  | None => (None, None)
  end.

(** ** The document classifier *)

(** [bool(v)] *)
Definition truthy (v : pyval) : bool :=
  match v with
  | PyNone => false
  | PyBool b => b
  | PyInt z => negb (Z.eqb z 0)
  | PyFloat f => match f with S754_zero _ => false | _ => true end
  | PyStr s => negb (String.eqb s "")
  | PyList l => match l with [] => false | _ => true end
  | PyDict d => negb (bool_decide (d = ∅))
  end.

(** [d.get(key, default)] *)
Definition dict_get (d : gmap string pyval) (key : string) (default : pyval) : pyval :=
  match d !! key with
  | Some v => v
  | None => default
  end.

(** [v == s] for a string [s] *)
Definition py_eq_str (v : pyval) (s : string) : bool :=
  match v with
  | PyStr t => String.eqb t s
  | _ => false
  end.

(** [v in l] for a list [l] of strings *)
Definition py_in (v : pyval) (l : list string) : bool :=
  existsb (py_eq_str v) l.

(** What [for step in v] iterates over: the elements of a list, the keys
    of a dictionary, the characters of a string; anything else is not
    iterable. A [gmap] does not keep Python's insertion order of the keys;
    the keys come in the order of [map_to_list]. *)
Definition py_iter (v : pyval) : res (list pyval) :=
  match v with
  | PyList l => Ok l
  | PyDict d => Ok (PyStr <$> (map_to_list d).*1)
  | PyStr s => Ok ((fun c => PyStr (String c EmptyString)) <$> list_ascii_of_string s)
  | PyNone | PyBool _ | PyInt _ | PyFloat _ => Raise TypeError
  end.

(** The body of the loop over the steps: [true] when it reaches
    [return True]. *)
Definition step_outdated (step : pyval) (old_runtimes_list : list string) : bool :=
  match step with
  | PyDict sd =>
      if py_eq_str (dict_get sd "action" PyNone) "aws:executeScript" then
        match dict_get sd "inputs" (PyDict ∅) with
        | PyDict inputs => py_in (dict_get inputs "Runtime" PyNone) old_runtimes_list
        | _ => false
        end
      else false
  | _ => false
  end.

(** The [for] loop, left by [return True] at the first step whose body
    says so, and followed by [return False]. *)
Fixpoint for_steps (steps : list pyval) (old_runtimes_list : list string) : bool :=
  match steps with
  | [] => false
  | step :: rest =>
      if step_outdated step old_runtimes_list then true
      else for_steps rest old_runtimes_list
  end.

(** How many times the body of that loop runs. *)
Fixpoint steps_inspected (steps : list pyval) (old_runtimes_list : list string) : nat :=
  match steps with
  | [] => 0
  | step :: rest =>
      if step_outdated step old_runtimes_list then 1
      else S (steps_inspected rest old_runtimes_list)
  end.

Definition has_outdated_python_runtime (document_content : pyval)
    (old_runtimes_list : list string) : res bool :=
  if negb (truthy document_content) then Ok false
  else
    match document_content with
    | PyDict d =>
        match py_iter (dict_get d "mainSteps" (PyList [])) with
        | Ok steps => Ok (for_steps steps old_runtimes_list)
        | Raise e => Raise e
        end
    | _ => Ok false
    end.

Definition DEFAULT_OLD_RUNTIMES : list string :=
  ["python3.9"; "python3.8"; "python3.7"; "python3.6"; "python2.7"].

(** [{"mainSteps":[{"action":"aws:executeScript","inputs":{"Runtime":r}}]}] *)
Definition script_document (r : string) : pyval :=
  PyDict {[ "mainSteps" :=
    PyList [ PyDict (<[ "action" := PyStr "aws:executeScript" ]>
                     {[ "inputs" := PyDict {[ "Runtime" := PyStr r ]} ]}) ] ]}.

(** ** The world outside the script

    The libraries and services the script talks to. [boto3] and the SSM
    service behind it are a state machine: constructing a client and
    fetching a document both return a value or raise, and may change the
    state of the service. [json.loads] is a function of its argument. *)

Record response : Type := { Content : option string }.

Record Env : Type := {
  Client : Type;
  Service : Type;
  (** [import boto3] succeeded *)
  BOTO3_AVAILABLE : bool;
  (** [boto3.client('ssm', region_name=region)] *)
  boto3_client : string → Service → res Client * Service;
  (** [ssm_client.get_document(Name=document_name, DocumentFormat='JSON')] *)
  ssm_get_document : Client → string → Service → res response * Service;
  (** [json.loads(content_str)] *)
  json_loads : string → res pyval;
}.

(** The file system: the text of each file, and the paths that cannot be
    opened ([PermissionError]). *)
Record FS : Type := {
  fs_data : gmap string string;
  fs_denied : gset string;
}.

Definition CR : ascii := ascii_of_nat 13.

(** Text mode with universal newlines: CR LF and CR are read as LF. *)
Fixpoint universal_newlines (s : string) : string :=
  match s with
  | String c s' =>
      if Ascii.eqb c CR then
        String LF
          match s' with
          | String d s'' => if Ascii.eqb d LF then universal_newlines s'' else universal_newlines s'
          | EmptyString => EmptyString
          end
      else String c (universal_newlines s')
  | EmptyString => EmptyString
  end.

(** The lines a file object yields, each with its line feed. *)
Fixpoint text_lines (s : string) : list string :=
  match s with
  | String c s' =>
      if Ascii.eqb c LF then String LF EmptyString :: text_lines s'
      else
        match text_lines s' with
        | l :: ls => String c l :: ls
        | [] => [String c EmptyString]
        end
  | EmptyString => []
  end.

(** [with open(path, 'r') as f: [line for line in f]] *)
Definition read_lines (path : string) (fs : FS) : res (list string) :=
  if bool_decide (path ∈ fs_denied fs) then Raise PermissionError
  else
    match fs_data fs !! path with
    | Some text => Ok (text_lines (universal_newlines text))
    | None => Raise FileNotFoundError
    end.

(** [with open(path, 'w') as f: f.write(text)] *)
Definition write_text (path text : string) (fs : FS) : res unit * FS :=
  if bool_decide (path ∈ fs_denied fs) then (Raise PermissionError, fs)
  else (Ok tt, {| fs_data := <[path := text]> (fs_data fs); fs_denied := fs_denied fs |}).

(** Calls made to [boto3], in the order they are made. *)
Inductive call (C : Type) : Type :=
  | NewClient (region : string) (result : res C)
  | GetDocument (ssm_client : C) (document_name : string).
Arguments NewClient {C} region result.
Arguments GetDocument {C} ssm_client document_name.

Record world (E : Env) : Type := {
  service : Service E;
  fs : FS;
  calls : list (call (Client E));
}.
Arguments service {E} _.
Arguments fs {E} _.
Arguments calls {E} _.

(** How a block of statements ends: it falls through to the next
    statement (or the next iteration), returns from the function, or
    lets an exception out. *)
Inductive flow : Type :=
  | Next
  | Return (b : bool)
  | Propagate (e : exn).

(** The local variables of the loop of [filter_ssm_documents]. *)
Record locals (C : Type) : Type := {
  ssm_clients : gmap string C;
  filtered_arns : list string;
  processed_count : nat;
  found_count : nat;
}.
Arguments ssm_clients {C} _.
Arguments filtered_arns {C} _.
Arguments processed_count {C} _.
Arguments found_count {C} _.

(** ** The batch driver

    Logging is left out: it has no effect on what the functions return or
    write. The loop is written in state-passing style over the local
    variables and the world. *)

(** What [f_out.write(f"{arn_to_write}\n")] for each ARN leaves in the file. *)
Fixpoint output_text (arns : list string) : string :=
  match arns with
  | [] => EmptyString
  | arn_to_write :: rest => arn_to_write +:+ String LF EmptyString +:+ output_text rest
  end.

(** [[line.strip() for line in f_in if line.strip()]] *)
Definition arns_of_lines (lines : list string) : list string :=
  filter (fun a : string => a ≠ "") (strip <$> lines).

Section Driver.
Context (E : Env).

Definition call_boto3_client (region : string) (w : world E)
    : res (Client E) * world E :=
  let '(r, s) := boto3_client E region (service w) in
  (r, {| service := s; fs := fs w; calls := calls w ++ [NewClient region r] |}).

Definition call_get_document (ssm_client : Client E) (document_name : string)
    (w : world E) : res response * world E :=
  let '(r, s) := ssm_get_document E ssm_client document_name (service w) in
  (r, {| service := s; fs := fs w;
         calls := calls w ++ [GetDocument ssm_client document_name] |}).

(** The body of the [try] of [get_document_content], after the fetch. *)
Definition decode_response (r : res response) : res pyval :=
  match r with
  | Ok response =>
      match Content response with
      | Some content_str =>
          if String.eqb content_str "" then Ok PyNone
          else json_loads E content_str
      | None => Ok PyNone
      end
  | Raise e => Raise e
  end.

(** The [try] of [get_document_content] with its [except] clauses. *)
Definition handle_fetch (r : res response) : res pyval :=
  match decode_response r with
  | Ok v => Ok v
  | Raise (ClientError _) => Ok PyNone          (* except ClientError *)
  | Raise JSONDecodeError => Ok PyNone          (* except json.JSONDecodeError *)
  | Raise e =>                                  (* except Exception *)
      if is_Exception e then Ok PyNone else Raise e
  end.

Definition get_document_content (ssm_client : Client E) (document_name : string)
    (w : world E) : res pyval * world E :=
  let '(r, w') := call_get_document ssm_client document_name w in
  (handle_fetch r, w').

Definition found (arn : string) (st : locals (Client E)) : locals (Client E) :=
  {| ssm_clients := ssm_clients st;
     filtered_arns := filtered_arns st ++ [arn];
     processed_count := processed_count st;
     found_count := S (found_count st) |}.

Definition counted (st : locals (Client E)) : locals (Client E) :=
  {| ssm_clients := ssm_clients st;
     filtered_arns := filtered_arns st;
     processed_count := S (processed_count st);
     found_count := found_count st |}.

Definition cached (region : string) (ssm_client : Client E)
    (st : locals (Client E)) : locals (Client E) :=
  {| ssm_clients := <[region := ssm_client]> (ssm_clients st);
     filtered_arns := filtered_arns st;
     processed_count := processed_count st;
     found_count := found_count st |}.

(** Lines 143 to 147: [if document_content: ...]. *)
Definition keep_if_outdated (arn : string) (document_content : pyval)
    (old_runtimes_list : list string) (st : locals (Client E))
    : flow * locals (Client E) :=
  if truthy document_content then
    match has_outdated_python_runtime document_content old_runtimes_list with
    | Ok true => (Next, found arn st)
    | Ok false => (Next, st)
    | Raise e => (Propagate e, st)
    end
  else (Next, st).

(** Lines 140 to 147: the statements of the loop body once the client of
    the region is at hand. *)
Definition classify_document (arn doc_name : string) (ssm_client : Client E)
    (old_runtimes_list : list string) (st : locals (Client E)) (w : world E)
    : flow * locals (Client E) * world E :=
  let '(r, w') := get_document_content ssm_client doc_name w in
  match r with
  | Raise e => (Propagate e, st, w')
  | Ok document_content =>
      let '(fl, st') := keep_if_outdated arn document_content old_runtimes_list st in
      (fl, st', w')
  end.

(** One iteration of the loop over [arns_to_process]. The client of the
    region is the one of the cache, or is made and put there (lines 126
    to 140); the handlers of the [try] around the construction are the
    three branches on the error. *)
Definition process_arn (arn : string) (old_runtimes_list : list string)
    (st0 : locals (Client E)) (w : world E)
    : flow * locals (Client E) * world E :=
  let st := counted st0 in
  match parse_arn arn with
  | (Some region, Some doc_name) =>
      if String.eqb region "" || String.eqb doc_name "" then (Next, st, w)
      else
        match ssm_clients st !! region with
        | Some ssm_client =>
            classify_document arn doc_name ssm_client old_runtimes_list st w
        | None =>
            let '(r, w') := call_boto3_client region w in
            match r with
            | Ok ssm_client =>
                classify_document arn doc_name ssm_client old_runtimes_list
                  (cached region ssm_client st) w'
            | Raise e =>
                if is_credentials_error e then (Return false, st, w')
                else if is_Exception e then (Next, st, w')
                else (Propagate e, st, w')
            end
        end
  | _ => (Next, st, w)
  end.

(** [for arn in arns_to_process: ...] *)
Fixpoint for_arns (arns : list string) (old_runtimes_list : list string)
    (st : locals (Client E)) (w : world E) : flow * locals (Client E) * world E :=
  match arns with
  | [] => (Next, st, w)
  | arn :: rest =>
      match process_arn arn old_runtimes_list st w with
      | (Next, st', w') => for_arns rest old_runtimes_list st' w'
      | stop => stop
      end
  end.

Definition initial_locals : locals (Client E) :=
  {| ssm_clients := ∅; filtered_arns := []; processed_count := 0; found_count := 0 |}.

(** [with open(output_file, 'w') as f_out: ...], with its [except IOError]. *)
Definition write_output (output_file text : string) (w : world E) : res bool * world E :=
  match write_text output_file text (fs w) with
  | (Ok _, fs') => (Ok true, {| service := service w; fs := fs'; calls := calls w |})
  | (Raise e, _) => if is_IOError e then (Ok false, w) else (Raise e, w)
  end.

Definition filter_ssm_documents (input_file output_file : string)
    (old_runtimes_list : list string) (w : world E) : res bool * world E :=
  if negb (BOTO3_AVAILABLE E) then (Ok false, w)
  else
    match read_lines input_file (fs w) with
    | Raise FileNotFoundError => (Ok false, w)
    | Raise e => (Raise e, w)
    | Ok lines =>
        match arns_of_lines lines with
        | [] => write_output output_file "" w
        | arns_to_process =>
            match for_arns arns_to_process old_runtimes_list initial_locals w with
            | (Next, st, w') => write_output output_file (output_text (filtered_arns st)) w'
            | (Return b, _, w') => (Ok b, w')
            | (Propagate e, _, w') => (Raise e, w')
            end
        end
    end.

End Driver.

Arguments call_boto3_client {E} region w.
Arguments call_get_document {E} ssm_client document_name w.
Arguments decode_response {E} r.
Arguments handle_fetch {E} r.
Arguments get_document_content {E} ssm_client document_name w.
Arguments found {E} arn st.
Arguments counted {E} st.
Arguments cached {E} region ssm_client st.
Arguments keep_if_outdated {E} arn document_content old_runtimes_list st.
Arguments classify_document {E} arn doc_name ssm_client old_runtimes_list st w.
Arguments process_arn {E} arn old_runtimes_list st0 w.
Arguments for_arns {E} arns old_runtimes_list st w.
Arguments initial_locals {E}.
Arguments write_output {E} output_file text w.
Arguments filter_ssm_documents {E} input_file output_file old_runtimes_list w.

(** ** A scripted service

    A stand-in for [boto3] and the service behind it, for running the
    driver on concrete inputs: clients are region names, the state of the
    service is the number of calls made so far, and the answers are given
    by two functions of that number. *)

Module Fixture.

Definition dq : string := String (ascii_of_nat 34) EmptyString.
Definition quoted (s : string) : string := dq +:+ s +:+ dq.
Definition nl : string := String LF EmptyString.

(** The text [{"mainSteps":[{"action":"aws:executeScript","inputs":{"Runtime":r}}]}] *)
Definition script_json (r : string) : string :=
  "{" +:+ quoted "mainSteps" +:+ ":[{" +:+ quoted "action" +:+ ":"
  +:+ quoted "aws:executeScript" +:+ "," +:+ quoted "inputs" +:+ ":{"
  +:+ quoted "Runtime" +:+ ":" +:+ quoted r +:+ "}}]}".

(** The text [{"mainSteps":null}] *)
Definition null_steps_json : string := "{" +:+ quoted "mainSteps" +:+ ":null}".

(** [json.loads] on the documents of the fixture; any other text is not
    JSON for it. *)
Definition loads (s : string) : res pyval :=
  if String.eqb s (script_json "python3.7") then Ok (script_document "python3.7")
  else if String.eqb s (script_json "python3.11") then Ok (script_document "python3.11")
  else if String.eqb s null_steps_json then Ok (PyDict {[ "mainSteps" := PyNone ]})
  else Raise JSONDecodeError.

Definition env (available : bool)
    (new_client : nat → string → res string)
    (get_document : nat → string → string → res response) : Env :=
  {| Client := string;
     Service := nat;
     BOTO3_AVAILABLE := available;
     boto3_client := fun region n => (new_client n region, S n);
     ssm_get_document := fun c name n => (get_document n c name, S n);
     json_loads := loads |}.

(** Every region gives a client. *)
Definition any_region (n : nat) (region : string) : res string := Ok region.

(** No credentials when a client is made. *)
Definition no_credentials (n : nat) (region : string) : res string :=
  Raise NoCredentialsError.

(** The first call to the service fails with a [ClientError]; later
    ones give a client. *)
Definition first_call_fails (n : nat) (region : string) : res string :=
  match n with
  | 0 => Raise (ClientError None)
  | S _ => Ok region
  end.

(** The documents of the service, by name. *)
Definition documents (n : nat) (c name : string) : res response :=
  if String.eqb name "MyDoc" then Ok {| Content := Some (script_json "python3.7") |}
  else if String.eqb name "NewDoc" then Ok {| Content := Some (script_json "python3.11") |}
  else if String.eqb name "Broken" then Ok {| Content := Some "{not json" |}
  else if String.eqb name "Empty" then Ok {| Content := None |}
  else if String.eqb name "NullSteps" then Ok {| Content := Some null_steps_json |}
  else Raise (ClientError (Some "InvalidDocument")).

(** The credentials are found missing when a document is fetched. *)
Definition no_credentials_at_fetch (n : nat) (c name : string) : res response :=
  Raise NoCredentialsError.

Definition healthy : Env := env true any_region documents.

(** Clients for every region, and no credentials at the first fetch. *)
Definition late_credentials_failure : Env := env true any_region no_credentials_at_fetch.

(** The first call to the service fails; after that it is healthy. *)
Definition slow_start : Env := env true first_call_fails documents.

Definition input_file : string := "ssm_automations_to_update.txt".
Definition output_file : string := "ssm_automations_filtered.txt".

(** A world where the input file holds [text], no call has been made
    yet, and the paths of [denied] cannot be opened. *)
Definition world_with (E : Env) (s : Service E) (text : string) (denied : gset string)
    : world E :=
  {| service := s;
     fs := {| fs_data := {[ input_file := text ]}; fs_denied := denied |};
     calls := [] |}.

Definition arn_MyDoc : string := "arn:aws:ssm:us-east-1:123456789012:document/MyDoc".
Definition arn_NewDoc : string := "arn:aws:ssm:us-east-1:123456789012:document/NewDoc".
Definition arn_Broken : string := "arn:aws:ssm:eu-west-1:123456789012:document/Broken".
Definition arn_Missing : string := "arn:aws:ssm:eu-west-1:123456789012:document/Missing".
Definition arn_NullSteps : string := "arn:aws:ssm:us-east-1:123456789012:document/NullSteps".
Definition arn_no_name : string := "arn:aws:ssm:us-east-1:123456789012:document/".

(** The file that holds the given lines. *)
Definition text_of (lines : list string) : string := output_text lines.

(** The text of the output file after a run. *)
Definition output_of {E : Env} (r : res bool * world E) : option string :=
  fs_data (fs r.2) !! output_file.

End Fixture.

(** ** The vocabulary of the properties *)

(** The documented shape [arn:aws:ssm:<region>:<account-id>:document/<name>]. *)
Definition arn_shape (region account name : string) : string :=
  "arn:aws:ssm:" +:+ region +:+ ":" +:+ account +:+ ":document/" +:+ name.

(** [c in s] *)
Fixpoint occurs (c : ascii) (s : string) : bool :=
  match s with
  | String d s' => Ascii.eqb d c || occurs c s'
  | EmptyString => false
  end.

(** A segment between colons: not empty, and without a colon. *)
Definition segment (s : string) : Prop := s ≠ "" ∧ occurs ":" s = false.

(** The parser either extracts the region and the name of a string that
    has the documented shape as a whole, or extracts nothing. *)
Definition parses_whole_string (s : string) : Prop :=
  (∃ region account name,
      parse_arn s = (Some region, Some name) ∧ s = arn_shape region account name)
  ∨ parse_arn s = (None, None).

(** The longest prefix of [s] in a character class, and what follows it. *)
Fixpoint run_of (cls : Re.charclass) (s : string) : string :=
  match s with
  | String c s' => if Re.in_class cls c then String c (run_of cls s') else EmptyString
  | EmptyString => EmptyString
  end.

Fixpoint after_run (cls : Re.charclass) (s : string) : string :=
  match s with
  | String c s' => if Re.in_class cls c then after_run cls s' else s
  | EmptyString => EmptyString
  end.

Fixpoint last_char (s : string) : option ascii :=
  match s with
  | String c s' => match last_char s' with Some d => Some d | None => Some c end
  | EmptyString => None
  end.

(** The entries of the [mainSteps] array of a document. *)
Definition main_steps (content : pyval) : list pyval :=
  match content with
  | PyDict d =>
      match d !! "mainSteps" with
      | Some (PyList steps) => steps
      | _ => []
      end
  | _ => []
  end.

(** A step that is an object, whose [action] is [aws:executeScript] and
    whose [inputs.Runtime] is a string of the denylist. *)
Definition qualifying_step (denylist : list string) (step : pyval) : Prop :=
  ∃ sd inputs runtime,
    step = PyDict sd
    ∧ sd !! "action" = Some (PyStr "aws:executeScript")
    ∧ sd !! "inputs" = Some (PyDict inputs)
    ∧ inputs !! "Runtime" = Some (PyStr runtime)
    ∧ runtime ∈ denylist.

(** The [action] of a step is something else than [aws:executeScript]. *)
Definition other_action (step : pyval) : Prop :=
  ∀ sd, step = PyDict sd → sd !! "action" ≠ Some (PyStr "aws:executeScript").

(** The [Runtime] of a step is absent, or is not in the denylist. *)
Definition runtime_not_listed (denylist : list string) (step : pyval) : Prop :=
  ∀ sd inputs, step = PyDict sd → sd !! "inputs" = Some (PyDict inputs) →
    inputs !! "Runtime" = None
    ∨ ∃ v, inputs !! "Runtime" = Some v ∧ ∀ r, v = PyStr r → r ∉ denylist.

(** [parse_arn] without the regular expression: the prefix, the two
    segments, and the name up to the first line feed. *)
Definition parse_arn_direct (s : string) : option string * option string :=
  match strip_prefix "arn:aws:ssm:" s with
  | Some s1 =>
      match run_of (Re.NotChar ":") s1 with
      | EmptyString => (None, None)
      | region =>
          match strip_prefix ":" (after_run (Re.NotChar ":") s1) with
          | Some s2 =>
              match run_of (Re.NotChar ":") s2 with
              | EmptyString => (None, None)
              | _ =>
                  match strip_prefix ":document/" (after_run (Re.NotChar ":") s2) with
                  | Some s3 => (Some region, Some (run_of Re.Dot s3))
                  | None => (None, None)
                  end
              end
          | None => (None, None)
          end
      end
  | None => (None, None)
  end.

(** The first appearance of each element, in order. *)
Fixpoint first_appearances (l : list string) : list string :=
  match l with
  | [] => []
  | a :: rest => a :: filter (fun b : string => b ≠ a) (first_appearances rest)
  end.

(** The clients made for a region by a sequence of calls. *)
Fixpoint constructed {C : Type} (region : string) (evs : list (call C)) : list C :=
  match evs with
  | [] => []
  | NewClient r (Ok c) :: evs' =>
      if String.eqb r region then c :: constructed region evs' else constructed region evs'
  | _ :: evs' => constructed region evs'
  end.

Section Statements.
Context (E : Env).

(** The answers of the service do not depend on its state: the same
    region gives the same client or the same failure, the same document
    name gives the same content or the same failure. *)
Definition stateless : Prop :=
  (∀ region s s', (boto3_client E region s).1 = (boto3_client E region s').1)
  ∧ (∀ c name s s', (ssm_get_document E c name s).1 = (ssm_get_document E c name s').1).

(** The document that is fetched for an input line, when there is one:
    the line parses, the client of its region is made, and the fetch and
    the decoding give a value. *)
Definition fetched_document (s : Service E) (arn : string) : option pyval :=
  match parse_arn arn with
  | (Some region, Some doc_name) =>
      if String.eqb region "" || String.eqb doc_name "" then None
      else
        match (boto3_client E region s).1 with
        | Ok ssm_client =>
            match handle_fetch (E := E) (ssm_get_document E ssm_client doc_name s).1 with
            | Ok v => Some v
            | Raise _ => None
            end
        | Raise _ => None
        end
  | _ => None
  end.

(** The fetched document of an input line is classified outdated. *)
Definition classified_outdated (s : Service E) (old_runtimes_list : list string)
    (arn : string) : bool :=
  match fetched_document s arn with
  | Some v =>
      truthy v &&
      match has_outdated_python_runtime v old_runtimes_list with
      | Ok true => true
      | _ => false
      end
  | None => false
  end.

(** The output of a run that succeeds lists each input ARN classified
    outdated once, at its first appearance. *)
Definition lists_each_outdated_arn_once (s : Service E)
    (input_file output_file : string) (old_runtimes_list : list string)
    (w : world E) : Prop :=
  ∀ lines,
    read_lines input_file (fs w) = Ok lines →
    (filter_ssm_documents input_file output_file old_runtimes_list w).1 = Ok true →
    fs_data (fs (filter_ssm_documents input_file output_file old_runtimes_list w).2)
      !! output_file
    = Some (output_text (first_appearances
              (filter (fun a => classified_outdated s old_runtimes_list a)
                 (arns_of_lines lines)))).

(** A run on an input file without a line that is not blank makes an
    empty output file, calls nothing, and succeeds. *)
Definition empty_input_succeeds (input_file output_file : string)
    (old_runtimes_list : list string) (w : world E) : Prop :=
  ∀ lines,
    read_lines input_file (fs w) = Ok lines →
    Forall (fun line => strip line = "") lines →
    (filter_ssm_documents input_file output_file old_runtimes_list w).1 = Ok true
    ∧ fs_data (fs (filter_ssm_documents input_file output_file old_runtimes_list w).2)
        !! output_file = Some ""
    ∧ calls (filter_ssm_documents input_file output_file old_runtimes_list w).2 = calls w.

(** The client the loop body works with for a region: the one of the
    cache, or a new one, which enters the cache. *)
Inductive obtains_client (region : string) (clients : gmap string (Client E)) (w : world E)
    : Client E → gmap string (Client E) → world E → Prop :=
  | client_from_cache c :
      clients !! region = Some c →
      obtains_client region clients w c clients w
  | client_made c w' :
      clients !! region = None →
      call_boto3_client region w = (Ok c, w') →
      obtains_client region clients w c (<[region := c]> clients) w'.

(** The failures that belong to one input line. *)
Inductive per_item_failure (arn : string) (st : locals (Client E)) (w : world E) : Prop :=
  | malformed_arn :
      parse_arn arn = (None, None) →
      per_item_failure arn st w
  | client_construction_failure region doc_name e w' :
      parse_arn arn = (Some region, Some doc_name) →
      doc_name ≠ "" →
      ssm_clients st !! region = None →
      call_boto3_client region w = (Raise e, w') →
      is_credentials_error e = false →
      is_Exception e = true →
      per_item_failure arn st w
  | fetch_failure region doc_name c clients w1 e w2 :
      parse_arn arn = (Some region, Some doc_name) →
      doc_name ≠ "" →
      obtains_client region (ssm_clients st) w c clients w1 →
      call_get_document c doc_name w1 = (Raise e, w2) →
      is_Exception e = true →
      per_item_failure arn st w
  | json_decode_failure region doc_name c clients w1 body e w2 :
      parse_arn arn = (Some region, Some doc_name) →
      doc_name ≠ "" →
      obtains_client region (ssm_clients st) w c clients w1 →
      call_get_document c doc_name w1 = (Ok {| Content := Some body |}, w2) →
      body ≠ "" →
      json_loads E body = Raise e →
      is_Exception e = true →
      per_item_failure arn st w.

(** An input line that meets no failure: it parses, its client is at
    hand, its document is fetched and decoded (or has no content), and
    the classifier gives its verdict. *)
Inductive item_without_failure (old_runtimes_list : list string) (arn : string)
    (st : locals (Client E)) (w : world E) : Prop :=
  | item_classified region doc_name c clients w1 resp w2 v :
      parse_arn arn = (Some region, Some doc_name) →
      doc_name ≠ "" →
      obtains_client region (ssm_clients st) w c clients w1 →
      call_get_document c doc_name w1 = (Ok resp, w2) →
      decode_response (E := E) (Ok resp) = Ok v →
      (truthy v = false ∨ ∃ b, has_outdated_python_runtime v old_runtimes_list = Ok b) →
      item_without_failure old_runtimes_list arn st w.

(** The document fetched for this occurrence of an input line is
    classified outdated: the line parses, its client is at hand, its
    document is fetched and decoded, and the classifier says [True]. *)
Inductive fetched_outdated (old_runtimes_list : list string) (arn : string)
    (st : locals (Client E)) (w : world E) : Prop :=
  | fetched_is_outdated region doc_name c clients w1 resp w2 v :
      parse_arn arn = (Some region, Some doc_name) →
      doc_name ≠ "" →
      obtains_client region (ssm_clients st) w c clients w1 →
      call_get_document c doc_name w1 = (Ok resp, w2) →
      decode_response (E := E) (Ok resp) = Ok v →
      truthy v = true →
      has_outdated_python_runtime v old_runtimes_list = Ok true →
      fetched_outdated old_runtimes_list arn st w.

(** A run of the loop in which nothing else happens than failures of
    single items. *)
Inductive only_item_failures (old_runtimes_list : list string)
    : list string → locals (Client E) → world E → Prop :=
  | no_item_left st w : only_item_failures old_runtimes_list [] st w
  | item_then_rest arn rest st w :
      per_item_failure arn st w ∨ item_without_failure old_runtimes_list arn st w →
      (∀ st' w', process_arn arn old_runtimes_list st w = (Next, st', w') →
                 only_item_failures old_runtimes_list rest st' w') →
      only_item_failures old_runtimes_list (arn :: rest) st w.

(** What a sequence of calls does to the cache: a region that is in the
    cache stays there with its client and no client is made for it; for
    a region that is not, the clients made are the one that is in the
    cache afterwards, if any. *)
Definition cache_follows (clients clients' : gmap string (Client E))
    (evs : list (call (Client E))) : Prop :=
  ∀ region,
    match clients !! region with
    | Some c => constructed region evs = [] ∧ clients' !! region = Some c
    | None => constructed region evs = option_list (clients' !! region)
    end.

(** The clients of the cache are those the service gives for their
    region, whatever its state. *)
Definition cache_of_service (clients : gmap string (Client E)) : Prop :=
  ∀ region c s, clients !! region = Some c → (boto3_client E region s).1 = Ok c.

End Statements.

Arguments stateless E : clear implicits.
Arguments fetched_document {E} s arn.
Arguments classified_outdated {E} s old_runtimes_list arn.
Arguments lists_each_outdated_arn_once {E} s input_file output_file old_runtimes_list w.
Arguments empty_input_succeeds {E} input_file output_file old_runtimes_list w.
Arguments obtains_client {E} region clients w _ _ _.
Arguments per_item_failure {E} arn st w.
Arguments item_without_failure {E} old_runtimes_list arn st w.
Arguments fetched_outdated {E} old_runtimes_list arn st w.
Arguments only_item_failures {E} old_runtimes_list _ _ _.
Arguments cache_follows {E} clients clients' evs.
Arguments cache_of_service {E} clients.

(** ** The command line *)

Definition DEFAULT_INPUT_FILENAME : string := "ssm_automations_to_update.txt".
Definition DEFAULT_OUTPUT_FILENAME : string := "ssm_automations_filtered.txt".

(** [s.split(sep)] for a separator of one character. *)
Fixpoint split_on (sep : ascii) (s : string) : list string :=
  match s with
  | String c s' =>
      if Ascii.eqb c sep then EmptyString :: split_on sep s'
      else
        match split_on sep s' with
        | piece :: pieces => String c piece :: pieces
        | [] => [String c EmptyString]
        end
  | EmptyString => [EmptyString]
  end.

(** [sep.join(l)] *)
Fixpoint join (sep : string) (l : list string) : string :=
  match l with
  | [] => EmptyString
  | [a] => a
  | a :: rest => a +:+ sep +:+ join sep rest
  end.

(** Line 183: [[rt.strip() for rt in args.old_runtimes.split(',') if rt.strip()]] *)
Definition parse_old_runtimes (old_runtimes : string) : list string :=
  filter (fun rt : string => rt ≠ "") (strip <$> split_on "," old_runtimes).

Module Cli.

(** What [parser.parse_args()] returns. *)
Record args : Type := {
  input_file : string;
  output_file : string;
  old_runtimes : string;
  log_level : string;
}.

(** The defaults of the four options. *)
Definition defaults : args :=
  {| input_file := DEFAULT_INPUT_FILENAME;
     output_file := DEFAULT_OUTPUT_FILENAME;
     old_runtimes := join "," DEFAULT_OLD_RUNTIMES;
     log_level := "INFO" |}.



End Cli.

(** Runs of the driver on the scripted service, for the examples. *)
Module Scenario.

Definition lines : list string :=
  [Fixture.arn_NewDoc; Fixture.arn_MyDoc; "not-an-arn"; Fixture.arn_MyDoc].

(** The input file holds an ARN that is up to date, an outdated one, a
    line that is no ARN, and the outdated one again. *)
Definition start : world Fixture.healthy :=
  Fixture.world_with Fixture.healthy 0 (Fixture.text_of lines) ∅.


(** There is no input file. *)
Definition no_input : world Fixture.healthy :=
  {| service := 0 : Service Fixture.healthy;
     fs := {| fs_data := ∅; fs_denied := ∅ |};
     calls := [] |}.



(** [boto3] could not be imported. *)
Definition without_boto3 : Env :=
  Fixture.env false Fixture.any_region Fixture.documents.

End Scenario.

(** ** More vocabulary *)

Definition first_char (s : string) : option ascii :=
  match s with
  | String c _ => Some c
  | EmptyString => None
  end.

(** The character, when there is one, is not whitespace. *)
Definition not_space (c : option ascii) : Prop :=
  match c with
  | Some c => py_isspace c = false
  | None => True
  end.

(** A text that [strip] leaves as it is and that fits on one line: not
    empty, no whitespace at either end, no line feed or carriage return. *)
Definition clean_line (s : string) : Prop :=
  s ≠ ""
  ∧ not_space (first_char s) ∧ not_space (last_char s)
  ∧ occurs LF s = false ∧ occurs CR s = false.

(** An entry of a denylist as [--old-runtimes] can give it: not empty,
    no whitespace at either end, no comma. *)
Definition runtime_entry (rt : string) : Prop :=
  rt ≠ ""
  ∧ not_space (first_char rt) ∧ not_space (last_char rt)
  ∧ occurs "," rt = false.

(** A value that [for] cannot iterate over. *)
Definition scalar (v : pyval) : Prop :=
  match v with
  | PyNone | PyBool _ | PyInt _ | PyFloat _ => True
  | PyStr _ | PyList _ | PyDict _ => False
  end.

(** The two kinds of calls. *)
Definition is_NewClient {C : Type} (ev : call C) : bool :=
  match ev with
  | NewClient _ _ => true
  | GetDocument _ _ => false
  end.

Definition is_GetDocument {C : Type} (ev : call C) : bool :=
  match ev with
  | NewClient _ _ => false
  | GetDocument _ _ => true
  end.

(** The call is about one of the lines: a client for the region of a
    line that parses with a name, or the document such a line names. *)
Definition asks_about {C : Type} (arns : list string) (ev : call C) : Prop :=
  ∃ arn region doc_name,
    arn ∈ arns
    ∧ parse_arn arn = (Some region, Some doc_name)
    ∧ doc_name ≠ ""
    ∧ match ev with
      | NewClient r _ => r = region
      | GetDocument _ name => name = doc_name
      end.

(** A line that is the whole of an ARN with a document name. *)
Definition whole_arn (arn : string) : Prop :=
  ∃ region account name,
    arn = arn_shape region account name
    ∧ segment region ∧ segment account ∧ name ≠ "".

Lemma append_String (c : ascii) (s t : string) : String c s +:+ t = String c (s +:+ t).
Proof. reflexivity. Qed.

Lemma append_nil_l (t : string) : "" +:+ t = t.
Proof. reflexivity. Qed.

Ltac str_simpl :=
  repeat (rewrite ?append_String, ?append_nil_l; cbn -[String.append]).

(** * Properties *)

(** ** Strings and the regular expression *)

Section StringFacts.

Lemma append_nil_r (s : string) : s +:+ "" = s.
Proof. induction s as [|c s IH]; str_simpl; [done | by rewrite IH]. Qed.

Lemma append_assoc (a b c : string) : (a +:+ b) +:+ c = a +:+ b +:+ c.
Proof. induction a as [|x a IH]; str_simpl; [done | by rewrite IH]. Qed.

Lemma strip_prefix_append (p s : string) : strip_prefix p (p +:+ s) = Some s.
Proof.
  induction p as [|c p IH]; str_simpl; [done |].
  by rewrite Ascii.eqb_refl.
Qed.

Lemma strip_prefix_Some (p s r : string) : strip_prefix p s = Some r → s = p +:+ r.
Proof.
  revert s. induction p as [|c p IH]; intros s; str_simpl.
  - by intros [= ->].
  - destruct s as [|d s]; [done |].
    destruct (Ascii.eqb_spec c d) as [-> | _]; [| done].
    intros H. by rewrite (IH _ H).
Qed.

Lemma occurs_append (c : ascii) (a b : string) :
  occurs c (a +:+ b) = occurs c a || occurs c b.
Proof.
  induction a as [|x a IH]; str_simpl; [done |].
  by rewrite IH, orb_assoc.
Qed.

Lemma last_char_append (a b : string) :
  b ≠ "" → last_char (a +:+ b) = last_char b.
Proof.
  intros Hb. induction a as [|x a IH]; str_simpl; [done |].
  rewrite IH. destruct b as [|y b]; [done |]. cbn.
  by destruct (last_char b).
Qed.

Lemma run_append_after (cls : Re.charclass) (s : string) :
  run_of cls s +:+ after_run cls s = s.
Proof.
  induction s as [|c s IH]; str_simpl; [done |].
  destruct (Re.in_class cls c); str_simpl; [by rewrite IH | done].
Qed.

(** After the run comes the end of the string or a character that is
    not in the class. *)
Lemma after_run_stops (cls : Re.charclass) (s : string) :
  after_run cls s = ""
  ∨ ∃ c t, after_run cls s = String c t ∧ Re.in_class cls c = false.
Proof.
  induction s as [|c s IH]; cbn; [by left |].
  destruct (Re.in_class cls c) eqn:Hc; [done |]. right. eauto.
Qed.

Lemma run_of_NotChar (x : ascii) (s : string) : occurs x (run_of (Re.NotChar x) s) = false.
Proof.
  induction s as [|c s IH]; cbn; [done |].
  destruct (Ascii.eqb_spec c x) as [-> | Hne]; cbn; [done |].
  rewrite IH. by destruct (Ascii.eqb_spec c x).
Qed.

Lemma run_of_Dot (s : string) : occurs LF (run_of Re.Dot s) = false.
Proof.
  induction s as [|c s IH]; cbn; [done |].
  destruct (Ascii.eqb_spec c LF) as [-> | Hne]; cbn; [done |].
  rewrite IH. by destruct (Ascii.eqb_spec c LF).
Qed.

(** A text of the class followed by a character outside it is the run. *)
Lemma run_of_segment (x : ascii) (a t : string) :
  occurs x a = false →
  run_of (Re.NotChar x) (a +:+ String x t) = a
  ∧ after_run (Re.NotChar x) (a +:+ String x t) = String x t.
Proof.
  induction a as [|c a IH]; str_simpl.
  - intros _. by rewrite Ascii.eqb_refl.
  - destruct (Ascii.eqb_spec c x) as [-> | Hne]; cbn; [done |].
    intros H. destruct (IH H) as [-> ->]. done.
Qed.

End StringFacts.

Section Greedy.
Context {A : Type} (cls : Re.charclass) (k : string → string → option A).

(** The longest run is tried first. *)
Lemma greedy_longest (acc s : string) (r : A) :
  k (acc +:+ run_of cls s) (after_run cls s) = Some r →
  Re.greedy cls k acc s = Some r.
Proof.
  revert acc. induction s as [|c s IH]; intros acc; cbn.
  - by rewrite append_nil_r.
  - destruct (Re.in_class cls c); cbn.
    + intros H. rewrite (IH (acc +:+ String c "")); [done |].
      by rewrite append_assoc.
    + by rewrite append_nil_r.
Qed.

(** When what follows the repetition cannot start with a character of
    the class, giving back characters never helps: only the longest
    run is left. *)
Lemma greedy_only_longest (acc s : string) :
  (∀ a c t, Re.in_class cls c = true → k a (String c t) = None) →
  Re.greedy cls k acc s = k (acc +:+ run_of cls s) (after_run cls s).
Proof.
  intros Hk. revert acc. induction s as [|c s IH]; intros acc; cbn.
  - by rewrite append_nil_r.
  - destruct (Re.in_class cls c) eqn:Hc; cbn.
    + rewrite IH, append_assoc. str_simpl. rewrite (Hk acc c s Hc).
      by destruct (k _ _).
    + by rewrite append_nil_r.
Qed.

End Greedy.

Lemma parse_arn_unfold (s : string) : parse_arn s = parse_arn_direct s.
Proof.
  unfold parse_arn, parse_arn_direct, Re.re_match, ARN_REGEX.
  cbn [Re.match_nodes].
  destruct (strip_prefix "arn:aws:ssm:" s) as [s1|]; [| reflexivity].
  rewrite greedy_only_longest; cycle 1.
  { intros a c t Hc. cbv beta.
    match goal with |- (if ?b then _ else _) = None => destruct b; [| reflexivity] end.
    cbn [Re.in_class] in Hc. cbn [strip_prefix].
    destruct (Ascii.eqb_spec ":" c) as [<- | ?]; [| done].
    by rewrite Ascii.eqb_refl in Hc. }
  rewrite append_nil_l.
  destruct (run_of (Re.NotChar ":") s1) as [|c1 region] eqn:Hregion; [reflexivity |].
  cbn [Re.min_count_ok].
  destruct (strip_prefix ":" (after_run (Re.NotChar ":") s1)) as [s2|]; [| reflexivity].
  rewrite greedy_only_longest; cycle 1.
  { intros a c t Hc. cbv beta.
    match goal with |- (if ?b then _ else _) = None => destruct b; [| reflexivity] end.
    cbn [Re.in_class] in Hc. cbn [strip_prefix].
    destruct (Ascii.eqb_spec ":" c) as [<- | ?]; [| done].
    by rewrite Ascii.eqb_refl in Hc. }
  rewrite append_nil_l.
  destruct (run_of (Re.NotChar ":") s2) as [|c2 account] eqn:Haccount; [reflexivity |].
  cbn [Re.min_count_ok].
  destruct (strip_prefix ":document/" (after_run (Re.NotChar ":") s2)) as [s3|]; [| reflexivity].
  erewrite greedy_longest; [| reflexivity].
  reflexivity.
Qed.

Lemma run_of_Dot_name (name rest : string) :
  occurs LF name = false →
  rest = "" ∨ (∃ t, rest = String LF t) →
  run_of Re.Dot (name +:+ rest) = name.
Proof.
  intros Hname Hrest. induction name as [|c name IH]; str_simpl.
  - destruct Hrest as [-> | [t ->]]; reflexivity.
  - cbn in Hname. apply orb_false_elim in Hname as [Hc Hname].
    rewrite Hc. cbn. by rewrite IH.
Qed.

Lemma arn_shape_append (region account name rest : string) :
  arn_shape region account name +:+ rest
  = "arn:aws:ssm:" +:+ region +:+ String ":" (account +:+ String ":" ("document/" +:+ name +:+ rest)).
Proof. unfold arn_shape. by rewrite !append_assoc. Qed.

(** Strings of the shape are parsed to their region and name; the name
    ends at the first line feed. *)
Lemma parse_arn_complete (region account name rest : string) :
  segment region → segment account →
  occurs LF name = false →
  rest = "" ∨ (∃ t, rest = String LF t) →
  parse_arn (arn_shape region account name +:+ rest) = (Some region, Some name).
Proof.
  intros [Hr1 Hr2] [Ha1 Ha2] Hname Hrest.
  rewrite parse_arn_unfold, arn_shape_append. unfold parse_arn_direct.
  rewrite strip_prefix_append.
  destruct (run_of_segment ":" region
              (account +:+ String ":" ("document/" +:+ name +:+ rest)) Hr2) as [-> ->].
  destruct region as [|r0 region]; [done |].
  rewrite (strip_prefix_append ":" (account +:+ String ":" ("document/" +:+ name +:+ rest))
           : strip_prefix ":" (String ":" _) = _).
  destruct (run_of_segment ":" account ("document/" +:+ name +:+ rest) Ha2) as [-> ->].
  destruct account as [|a0 account]; [done |].
  change (String ":" ("document/" +:+ name +:+ rest)) with (":document/" +:+ name +:+ rest).
  rewrite strip_prefix_append.
  by rewrite run_of_Dot_name.
Qed.

(** What is parsed has the shape, up to the first line feed of the name. *)
Lemma parse_arn_sound (s : string) :
  parse_arn s = (None, None)
  ∨ ∃ region account name rest,
      parse_arn s = (Some region, Some name)
      ∧ s = arn_shape region account name +:+ rest
      ∧ segment region ∧ segment account
      ∧ occurs LF name = false
      ∧ (rest = "" ∨ ∃ t, rest = String LF t).
Proof.
  rewrite parse_arn_unfold. unfold parse_arn_direct.
  destruct (strip_prefix "arn:aws:ssm:" s) as [s1|] eqn:H1; [| by left].
  destruct (run_of (Re.NotChar ":") s1) as [|r0 region] eqn:Hregion; [by left |].
  destruct (strip_prefix ":" (after_run (Re.NotChar ":") s1)) as [s2|] eqn:H2; [| by left].
  destruct (run_of (Re.NotChar ":") s2) as [|a0 account] eqn:Haccount; [by left |].
  destruct (strip_prefix ":document/" (after_run (Re.NotChar ":") s2)) as [s3|] eqn:H3;
    [| by left].
  right. exists (String r0 region), (String a0 account), (run_of Re.Dot s3), (after_run Re.Dot s3).
  split; [done |]. split; [| split; [| split; [| split]]].
  - rewrite arn_shape_append.
    apply strip_prefix_Some in H1, H2, H3.
    rewrite run_append_after.
    change (String ":" ("document/" +:+ s3)) with (":document/" +:+ s3).
    rewrite <- H3, <- Haccount, run_append_after.
    change (String ":" s2) with (":" +:+ s2).
    by rewrite <- H2, <- Hregion, run_append_after.
  - split; [done |]. rewrite <- Hregion. apply run_of_NotChar.
  - split; [done |]. rewrite <- Haccount. apply run_of_NotChar.
  - apply run_of_Dot.
  - destruct (after_run_stops Re.Dot s3) as [-> | (c & t & -> & Hc)]; [by left |].
    right. exists t. cbn in Hc. apply negb_false_iff in Hc.
    by apply Ascii.eqb_eq in Hc as ->.
Qed.

Lemma arn_shape_suffix (region account name : string) :
  arn_shape region account name
  = ("arn:aws:ssm:" +:+ region +:+ ":" +:+ account) +:+ ":document/" +:+ name.
Proof. unfold arn_shape. by rewrite !append_assoc. Qed.

(** ** The classifier *)

Lemma py_in_spec (v : pyval) (l : list string) :
  py_in v l = true ↔ ∃ r, v = PyStr r ∧ r ∈ l.
Proof.
  unfold py_in. rewrite existsb_exists. split.
  - intros (x & Hin & Heq). destruct v; try discriminate.
    apply String.eqb_eq in Heq as ->. exists x. split; [done |].
    by apply list_elem_of_In.
  - intros (r & -> & Hin). exists r. split; [by apply list_elem_of_In |].
    apply String.eqb_refl.
Qed.

Lemma py_eq_str_spec (v : pyval) (s : string) : py_eq_str v s = true ↔ v = PyStr s.
Proof.
  destruct v; cbn; try (split; [discriminate | congruence]).
  rewrite String.eqb_eq. split; congruence.
Qed.

Lemma step_outdated_spec (step : pyval) (old : list string) :
  step_outdated step old = true ↔ qualifying_step old step.
Proof.
  split.
  - destruct step as [| | | | |l|sd]; try discriminate. unfold step_outdated, dict_get.
    destruct (sd !! "action") as [a|] eqn:Ha; [| discriminate].
    destruct (py_eq_str a "aws:executeScript") eqn:Heq; [| discriminate].
    apply py_eq_str_spec in Heq as ->.
    destruct (sd !! "inputs") as [i|] eqn:Hi.
    + destruct i as [| | | | |l|inputs]; try discriminate.
      intros (r & Hr & Hin)%py_in_spec.
      exists sd, inputs, r. repeat split; try done.
      destruct (inputs !! "Runtime") as [v|]; [by subst | discriminate].
    + rewrite lookup_empty. intros (r & Hr & _)%py_in_spec. discriminate.
  - intros (sd & inputs & r & -> & Ha & Hi & Hr & Hin).
    unfold step_outdated, dict_get. rewrite Ha, Hi, Hr. cbn.
    apply py_in_spec. eauto.
Qed.

Lemma for_steps_spec (steps : list pyval) (old : list string) :
  for_steps steps old = true ↔ ∃ step, step ∈ steps ∧ qualifying_step old step.
Proof.
  induction steps as [|step steps IH]; cbn.
  - split; [discriminate |]. intros (step & Hin & _). by apply elem_of_nil in Hin.
  - destruct (step_outdated step old) eqn:Hstep.
    + split; [| done]. intros _. exists step. split; [left |].
      by apply step_outdated_spec.
    + rewrite IH. split.
      * intros (s & Hin & Hq). exists s. split; [by right | done].
      * intros (s & Hin & Hq). apply elem_of_cons in Hin as [-> | Hin]; [| eauto].
        apply step_outdated_spec in Hq. congruence.
Qed.

(** The loop stops at the first step that qualifies. *)
Lemma for_steps_first (before after : list pyval) (step : pyval) (old : list string) :
  step_outdated step old = true →
  for_steps (before ++ step :: after) old = true
  ∧ (steps_inspected (before ++ step :: after) old ≤ S (length before))%nat.
Proof.
  intros Hstep. induction before as [|b before [IH1 IH2]]; cbn.
  - rewrite Hstep. split; [done | lia].
  - destruct (step_outdated b old); [split; [done | lia] |]. split; [done | lia].
Qed.

Lemma for_steps_strings (l : list string) (old : list string) :
  for_steps (PyStr <$> l) old = false.
Proof. induction l as [|s l IH]; cbn; done. Qed.

Lemma has_outdated_not_dict (content : pyval) (old : list string) :
  (∀ d, content ≠ PyDict d) → has_outdated_python_runtime content old = Ok false.
Proof.
  intros Hd. unfold has_outdated_python_runtime.
  destruct content; try (by destruct (negb _)). by destruct (Hd d).
Qed.

(** The classifier on a dictionary that is not empty. *)
Lemma has_outdated_dict (d : gmap string pyval) (old : list string) :
  has_outdated_python_runtime (PyDict d) old
  = if bool_decide (d = ∅) then Ok false
    else match py_iter (dict_get d "mainSteps" (PyList [])) with
         | Ok steps => Ok (for_steps steps old)
         | Raise e => Raise e
         end.
Proof.
  unfold has_outdated_python_runtime. cbn [truthy]. rewrite negb_involutive.
  by destruct (bool_decide (d = ∅)).
Qed.

Lemma has_outdated_steps (d : gmap string pyval) (steps : list pyval) (old : list string) :
  d !! "mainSteps" = Some (PyList steps) →
  has_outdated_python_runtime (PyDict d) old = Ok (for_steps steps old).
Proof.
  intros Hd. rewrite has_outdated_dict. unfold dict_get. rewrite Hd.
  case_bool_decide as He; [| done]. subst d. by rewrite lookup_empty in Hd.
Qed.

Lemma has_outdated_true (content : pyval) (old : list string) :
  has_outdated_python_runtime content old = Ok true
  ↔ ∃ step, step ∈ main_steps content ∧ qualifying_step old step.
Proof.
  assert (Hnone : ¬ ∃ step, step ∈ @nil pyval ∧ qualifying_step old step).
  { intros (step & Hin & _). by apply elem_of_nil in Hin. }
  destruct content as [| | | | | |d];
    try (rewrite has_outdated_not_dict by done; cbn; split; [discriminate | done]).
  rewrite has_outdated_dict. unfold main_steps, dict_get.
  case_bool_decide as He.
  { subst d. rewrite lookup_empty. split; [discriminate | done]. }
  destruct (d !! "mainSteps") as [v|]; [| cbn; split; [discriminate | done]].
  destruct v as [| | | |s|l|d']; cbn; try (split; [discriminate | done]).
  - assert (∀ l : list ascii, for_steps ((fun c => PyStr (String c "")) <$> l) old = false)
      as -> by (intros l; induction l; cbn; done).
    split; [discriminate | done].
  - split; [intros [= H] | intros H; f_equal]; by apply for_steps_spec.
  - rewrite for_steps_strings. split; [discriminate | done].
Qed.

Lemma not_qualifying (old : list string) (step : pyval) :
  other_action step ∨ runtime_not_listed old step → ¬ qualifying_step old step.
Proof.
  intros H (sd & inputs & r & -> & Ha & Hi & Hr & Hin). destruct H as [H | H].
  - by apply (H sd).
  - destruct (H sd inputs eq_refl Hi) as [Hn | (v & Hv & Hnot)]; [congruence |].
    rewrite Hr in Hv. injection Hv as <-. by apply (Hnot r).
Qed.

(** What makes the classifier raise: a [mainSteps] that cannot be iterated. *)
Lemma has_outdated_raises (d : gmap string pyval) (v : pyval) (old : list string) :
  d !! "mainSteps" = Some v →
  py_iter v = Raise TypeError →
  has_outdated_python_runtime (PyDict d) old = Raise TypeError.
Proof.
  intros Hd Hv. rewrite has_outdated_dict. unfold dict_get. rewrite Hd, Hv.
  case_bool_decide as He; [| done]. subst d. by rewrite lookup_empty in Hd.
Qed.

(** ** The driver, step by step *)

Lemma parse_arn_region (arn region doc_name : string) :
  parse_arn arn = (Some region, Some doc_name) → region ≠ "".
Proof.
  intros Hp. destruct (parse_arn_sound arn) as [H | (r & a & n & rest & H & _ & [Hr _] & _)];
    congruence.
Qed.

(** A line is skipped after parsing, or has a region and a name. *)
Lemma parse_arn_cases (arn : string) :
  (parse_arn arn = (None, None) ∨ ∃ region, parse_arn arn = (Some region, Some ""))
  ∨ ∃ region doc_name, parse_arn arn = (Some region, Some doc_name) ∧ doc_name ≠ "".
Proof.
  destruct (parse_arn_sound arn) as [Hp | (region & a & doc_name & rest & Hp & _)];
    [by left; left |].
  destruct (decide (doc_name = "")) as [-> | Hn]; [left; right; eauto | right; eauto].
Qed.

Lemma constructed_app {C : Type} (region : string) (evs evs' : list (call C)) :
  constructed region (evs ++ evs') = constructed region evs ++ constructed region evs'.
Proof.
  induction evs as [|[r [c|e]|c n] evs IH]; cbn; [done | | done | done].
  destruct (String.eqb r region); cbn; by rewrite IH.
Qed.

Section DriverFacts.
Context {E : Env} (old : list string).
Implicit Types (st : locals (Client E)) (w : world E) (arn region : string).

Lemma call_boto3_client_eq region w :
  call_boto3_client region w
  = ((boto3_client E region (service w)).1,
     {| service := (boto3_client E region (service w)).2;
        fs := fs w;
        calls := calls w ++ [NewClient region (boto3_client E region (service w)).1] |}).
Proof. unfold call_boto3_client. by destruct (boto3_client E region (service w)). Qed.

Lemma call_get_document_eq (c : Client E) (doc_name : string) w :
  call_get_document c doc_name w
  = ((ssm_get_document E c doc_name (service w)).1,
     {| service := (ssm_get_document E c doc_name (service w)).2;
        fs := fs w;
        calls := calls w ++ [GetDocument c doc_name] |}).
Proof. unfold call_get_document. by destruct (ssm_get_document E c doc_name (service w)). Qed.

Lemma call_boto3_client_world region w :
  fs (call_boto3_client region w).2 = fs w
  ∧ calls (call_boto3_client region w).2
    = calls w ++ [NewClient region (call_boto3_client region w).1]
  ∧ (call_boto3_client region w).1 = (boto3_client E region (service w)).1.
Proof. by rewrite call_boto3_client_eq. Qed.

Lemma call_get_document_world (c : Client E) (doc_name : string) w :
  fs (call_get_document c doc_name w).2 = fs w
  ∧ calls (call_get_document c doc_name w).2 = calls w ++ [GetDocument c doc_name]
  ∧ (call_get_document c doc_name w).1 = (ssm_get_document E c doc_name (service w)).1.
Proof. by rewrite call_get_document_eq. Qed.

(** Every exception of the fetch and of the decoding that is an
    [Exception] is turned into [None]. *)
Lemma handle_fetch_exception (r : res response) (e : exn) :
  decode_response (E := E) r = Raise e → is_Exception e = true →
  handle_fetch (E := E) r = Ok PyNone.
Proof. unfold handle_fetch. intros -> He. by destruct e. Qed.

Lemma handle_fetch_decoded (r : res response) (v : pyval) :
  decode_response (E := E) r = Ok v → handle_fetch (E := E) r = Ok v.
Proof. unfold handle_fetch. by intros ->. Qed.

(** The classification block leaves the cache alone, and the list of
    results grows by the ARN at most. *)
Lemma keep_if_outdated_spec arn (v : pyval) st :
  ∃ fl st', keep_if_outdated arn v old st = (fl, st')
    ∧ (fl = Next
         ∧ (truthy v = true ∧ has_outdated_python_runtime v old = Ok true
              ∧ st' = found arn st
            ∨ (truthy v = false ∨ has_outdated_python_runtime v old = Ok false)
              ∧ st' = st)
       ∨ (∃ e, fl = Propagate e ∧ truthy v = true
                ∧ has_outdated_python_runtime v old = Raise e ∧ st' = st)).
Proof.
  unfold keep_if_outdated. destruct (truthy v); [| by eauto 10].
  destruct (has_outdated_python_runtime v old) as [[|]|e]; eauto 12.
Qed.

(** The statements after the client is at hand: one call to the
    service, then the classification of what it answered. *)
Lemma classify_document_eq arn (doc_name : string) (c : Client E) st w :
  classify_document arn doc_name c old st w
  = match handle_fetch (E := E) (call_get_document c doc_name w).1 with
    | Raise e => (Propagate e, st, (call_get_document c doc_name w).2)
    | Ok v => (keep_if_outdated arn v old st, (call_get_document c doc_name w).2)
    end.
Proof.
  unfold classify_document, get_document_content.
  destruct (call_get_document c doc_name w) as [r w']. cbn.
  destruct (handle_fetch r); [| done]. by destruct (keep_if_outdated _ _ _ _).
Qed.

(** What [classify_document] can do: it calls the service once, leaves
    the cache and the files alone, and either keeps the locals or adds
    the ARN to the results. *)
Lemma classify_document_frame arn (doc_name : string) (c : Client E) st w fl st' w' :
  classify_document arn doc_name c old st w = (fl, st', w') →
  w' = (call_get_document c doc_name w).2
  ∧ (fl = Next ∧ st' = found arn st
     ∨ fl = Next ∧ st' = st
     ∨ ∃ e, fl = Propagate e ∧ st' = st).
Proof.
  rewrite classify_document_eq.
  destruct (handle_fetch _) as [v|e]; [| intros [= <- <- <-]; eauto 10].
  destruct (keep_if_outdated_spec arn v st)
    as (fl0 & st0 & -> & [[-> [(_ & _ & ->) | [_ ->]]] | (e & -> & _ & _ & ->)]);
    intros [= <- <- <-]; eauto 10.
Qed.

Lemma process_arn_skip arn st w :
  parse_arn arn = (None, None) ∨ (∃ region, parse_arn arn = (Some region, Some "")) →
  process_arn arn old st w = (Next, counted st, w).
Proof.
  unfold process_arn. intros [-> | [region ->]]; [done |].
  by rewrite String.eqb_refl, orb_true_r.
Qed.

Lemma process_arn_parsed arn region (doc_name : string) st w :
  parse_arn arn = (Some region, Some doc_name) → doc_name ≠ "" →
  process_arn arn old st w
  = match ssm_clients st !! region with
    | Some c => classify_document arn doc_name c old (counted st) w
    | None =>
        match (call_boto3_client region w).1 with
        | Ok c => classify_document arn doc_name c old (cached region c (counted st))
                    (call_boto3_client region w).2
        | Raise e =>
            (if is_credentials_error e then Return false
             else if is_Exception e then Next else Propagate e,
             counted st, (call_boto3_client region w).2)
        end
    end.
Proof.
  intros Hp Hn. unfold process_arn. rewrite Hp.
  pose proof (parse_arn_region _ _ _ Hp) as Hr.
  destruct (String.eqb_spec region "") as [? | _]; [done |].
  destruct (String.eqb_spec doc_name "") as [? | _]; [done |].
  cbn [orb ssm_clients counted].
  destruct (ssm_clients st !! region); [done |].
  destruct (call_boto3_client region w) as [[c|e] w1]; cbn; [done |].
  by destruct (is_credentials_error e), (is_Exception e).
Qed.

Lemma for_arns_cons arn (rest : list string) st w :
  for_arns (arn :: rest) old st w
  = match process_arn arn old st w with
    | (Next, st', w') => for_arns rest old st' w'
    | stop => stop
    end.
Proof. reflexivity. Qed.

Lemma for_arns_Next arn (rest : list string) st w st' w' :
  process_arn arn old st w = (Next, st', w') →
  for_arns (arn :: rest) old st w = for_arns rest old st' w'.
Proof. intros H. by rewrite for_arns_cons, H. Qed.

Lemma for_arns_stop arn (rest : list string) st w fl st' w' :
  process_arn arn old st w = (fl, st', w') → fl ≠ Next →
  for_arns (arn :: rest) old st w = (fl, st', w').
Proof. intros H Hfl. rewrite for_arns_cons, H. by destruct fl. Qed.

(** An invariant of the iterations that are left by [Next] or not at
    all is an invariant of the loop. *)
Lemma for_arns_ind (P : locals (Client E) → world E → locals (Client E) → world E → Prop) :
  (∀ st w, P st w st w) →
  (∀ st w st1 w1 st2 w2, P st w st1 w1 → P st1 w1 st2 w2 → P st w st2 w2) →
  ∀ arns : list string,
    (∀ arn st w fl st' w', arn ∈ arns →
       process_arn arn old st w = (fl, st', w') → P st w st' w') →
    ∀ st w fl st' w', for_arns arns old st w = (fl, st', w') → P st w st' w'.
Proof.
  intros Hrefl Htrans arns. induction arns as [|arn rest IH]; intros Hstep st w fl st' w'.
  - intros [= <- <- <-]. apply Hrefl.
  - rewrite for_arns_cons.
    destruct (process_arn arn old st w) as [[fl1 st1] w1] eqn:H1.
    assert (P st w st1 w1) as HP1 by (eapply Hstep; [left | done]).
    destruct fl1; [| by intros [= <- <- <-] ..].
    intros H. eapply Htrans; [done |]. eapply IH; [| done].
    intros ? ? ? ? ? ? Hin. apply Hstep. by right.
Qed.

Lemma write_output_ok (output_file text : string) w :
  output_file ∉ fs_denied (fs w) →
  ∃ w', write_output output_file text w = (Ok true, w')
    ∧ fs_data (fs w') !! output_file = Some text
    ∧ calls w' = calls w ∧ service w' = service w.
Proof.
  intros Hd. unfold write_output, write_text. rewrite bool_decide_eq_false_2 by done.
  eexists. split; [done |]. cbn. by rewrite lookup_insert_eq.
Qed.

Lemma write_output_denied (output_file text : string) w :
  output_file ∈ fs_denied (fs w) →
  write_output output_file text w = (Ok false, w).
Proof.
  intros Hd. unfold write_output, write_text. by rewrite bool_decide_eq_true_2.
Qed.

Lemma write_output_true (output_file text : string) w w' :
  write_output output_file text w = (Ok true, w') →
  fs_data (fs w') !! output_file = Some text.
Proof.
  destruct (decide (output_file ∈ fs_denied (fs w))) as [Hd | Hd].
  - by rewrite write_output_denied.
  - destruct (write_output_ok output_file text w Hd) as (w'' & -> & H & _).
    by intros [= <-].
Qed.

End DriverFacts.

(** * The claims *)

(** ** The ARN parser *)

(** C4, as stated, fails on a name with a line feed: the [.] of the
    regular expression stops there and [match] does not ask for the end
    of the string, so the region and a shortened name are extracted from
    a string that does not have the documented shape as a whole. *)
Lemma parse_arn_line_feed :
  ¬ parses_whole_string
      ("arn:aws:ssm:us-east-1:123456789012:document/MyDoc" +:+ String LF "Other").
Proof.
  assert (parse_arn ("arn:aws:ssm:us-east-1:123456789012:document/MyDoc"
                       +:+ String LF "Other")
          = (Some "us-east-1", Some "MyDoc")) as Hparse by (vm_compute; reflexivity).
  intros [(region & account & name & Hp & Hs) | Hp]; rewrite Hparse in Hp;
    [| discriminate Hp].
  injection Hp as <- <-.
  apply (f_equal last_char) in Hs. rewrite arn_shape_suffix in Hs.
  rewrite !last_char_append in Hs by discriminate.
  vm_compute in Hs. discriminate Hs.
Qed.

(** C4, amended: [parse_arn] is total. It returns either nothing, or the
    region and the name of a string that starts with the documented shape,
    where region and account are non-empty and without colon and the name
    runs to the end of the string or to its first line feed, whichever
    comes first. Every string of that form is parsed to its region and
    name, and a string without a line feed is parsed as a whole. *)
Theorem parse_arn_shape :
  (∀ s,
     parse_arn s = (None, None)
     ∨ ∃ region account name rest,
         parse_arn s = (Some region, Some name)
         ∧ s = arn_shape region account name +:+ rest
         ∧ segment region ∧ segment account
         ∧ occurs LF name = false
         ∧ (rest = "" ∨ ∃ t, rest = String LF t))
  ∧ (∀ region account name rest,
       segment region → segment account →
       occurs LF name = false →
       rest = "" ∨ (∃ t, rest = String LF t) →
       parse_arn (arn_shape region account name +:+ rest) = (Some region, Some name))
  ∧ (∀ s, occurs LF s = false → parses_whole_string s).
Proof.
  split; [exact parse_arn_sound |]. split; [exact parse_arn_complete |].
  intros s Hs.
  destruct (parse_arn_sound s)
    as [H | (region & account & name & rest & Hp & -> & _ & _ & _ & Hrest)]; [by right |].
  left. exists region, account, name. split; [done |].
  destruct Hrest as [-> | [t ->]]; [by rewrite append_nil_r |].
  rewrite occurs_append in Hs. apply orb_false_elim in Hs as [_ Hs].
  cbn in Hs. by rewrite Ascii.eqb_refl in Hs.
Qed.

Lemma parse_arn_shape_witness :
  parse_arn "arn:aws:ssm:us-east-1:123456789012:document/Team/MyDoc"
  = (Some "us-east-1", Some "Team/MyDoc").
Proof.
  apply (proj1 (proj2 parse_arn_shape) "us-east-1" "123456789012" "Team/MyDoc" "").
  - split; [discriminate | reflexivity].
  - split; [discriminate | reflexivity].
  - reflexivity.
  - left. reflexivity.
Defined.

(** ** The classifier *)

(** C1: the classifier returns [True] exactly when some entry of the
    [mainSteps] array is an object with the action [aws:executeScript]
    and an [inputs.Runtime] in the denylist; it returns [False] for
    missing content, content that is not an object, an absent [mainSteps],
    and steps with another action or with a runtime that is absent or not
    listed; and at the first qualifying step it returns [True] with no
    step after it inspected. *)
Theorem has_outdated_python_runtime_spec (denylist : list string) :
  (∀ content,
     has_outdated_python_runtime content denylist = Ok true
     ↔ ∃ step, step ∈ main_steps content ∧ qualifying_step denylist step)
  ∧ has_outdated_python_runtime PyNone denylist = Ok false
  ∧ (∀ content, (∀ d, content ≠ PyDict d) →
       has_outdated_python_runtime content denylist = Ok false)
  ∧ (∀ d, d !! "mainSteps" = None →
       has_outdated_python_runtime (PyDict d) denylist = Ok false)
  ∧ (∀ d steps,
       d !! "mainSteps" = Some (PyList steps) →
       (∀ step, step ∈ steps → other_action step ∨ runtime_not_listed denylist step) →
       has_outdated_python_runtime (PyDict d) denylist = Ok false)
  ∧ (∀ d before step after,
       d !! "mainSteps" = Some (PyList (before ++ step :: after)) →
       qualifying_step denylist step →
       has_outdated_python_runtime (PyDict d) denylist = Ok true
       ∧ steps_inspected (before ++ step :: after) denylist ≤ S (length before)).
Proof.
  split; [intros content; apply has_outdated_true |]. split; [done |].
  split; [intros content Hc; by apply has_outdated_not_dict |]. split; [| split].
  - intros d Hd. rewrite has_outdated_dict. unfold dict_get. rewrite Hd. cbn.
    by case_bool_decide.
  - intros d steps Hd Hsteps. rewrite (has_outdated_steps d steps) by done.
    f_equal. apply not_true_is_false. intros (step & Hin & Hq)%for_steps_spec.
    by apply (not_qualifying denylist step (Hsteps step Hin)).
  - intros d before step after Hd Hq%step_outdated_spec.
    rewrite (has_outdated_steps d _ denylist Hd).
    destruct (for_steps_first before after step denylist Hq) as [-> Hn]. done.
Qed.

Lemma has_outdated_python_runtime_spec_witness :
  has_outdated_python_runtime
    (PyDict {[ "mainSteps" :=
       PyList [ PyStr "no step";
                PyDict (<[ "action" := PyStr "aws:executeScript" ]>
                        {[ "inputs" := PyDict {[ "Runtime" := PyStr "python3.7" ]} ]});
                PyNone ] ]})
    DEFAULT_OLD_RUNTIMES = Ok true
  ∧ steps_inspected
      [ PyStr "no step";
        PyDict (<[ "action" := PyStr "aws:executeScript" ]>
                {[ "inputs" := PyDict {[ "Runtime" := PyStr "python3.7" ]} ]});
        PyNone ]
      DEFAULT_OLD_RUNTIMES ≤ 2.
Proof.
  apply (proj2 (proj2 (proj2 (proj2 (proj2
           (has_outdated_python_runtime_spec DEFAULT_OLD_RUNTIMES)))))
           _ [PyStr "no step"] _ [PyNone]).
  - vm_compute. reflexivity.
  - eexists _, _, "python3.7". split; [reflexivity |].
    split; [vm_compute; reflexivity |]. split; [vm_compute; reflexivity |].
    split; [vm_compute; reflexivity |].
    apply (bool_decide_unpack _). vm_compute. exact I.
Defined.

(** C5 fails: a document whose [mainSteps] is [null] makes the classifier
    raise [TypeError], where the claim has it return a boolean. *)
Theorem has_outdated_python_runtime_null_mainSteps :
  has_outdated_python_runtime (PyDict {[ "mainSteps" := PyNone ]}) DEFAULT_OLD_RUNTIMES
  = Raise TypeError.
Proof. vm_compute. reflexivity. Qed.

(** ** The driver: skipping and aborting *)

Section Skipping.
Context {E : Env} (old : list string).
Implicit Types (st : locals (Client E)) (w : world E) (arn region : string).

(** One iteration leaves the files alone, and adds to the results the
    ARN at hand at most, and only when it has a region and a name. *)
Lemma process_arn_frame arn st w fl st' w' :
  process_arn arn old st w = (fl, st', w') →
  fs w' = fs w
  ∧ (filtered_arns st' = filtered_arns st
     ∨ filtered_arns st' = filtered_arns st ++ [arn]
       ∧ ∃ region doc_name, parse_arn arn = (Some region, Some doc_name) ∧ doc_name ≠ "").
Proof.
  destruct (parse_arn_cases arn) as [Hskip | (region & doc_name & Hp & Hn)].
  { rewrite process_arn_skip by done. intros [= <- <- <-]. by split; [| left]. }
  rewrite (process_arn_parsed old arn region doc_name st w Hp Hn).
  assert (∀ c st0 w0, fs w0 = fs w → filtered_arns st0 = filtered_arns st →
            classify_document arn doc_name c old st0 w0 = (fl, st', w') →
            fs w' = fs w
            ∧ (filtered_arns st' = filtered_arns st
               ∨ filtered_arns st' = filtered_arns st ++ [arn]
                 ∧ ∃ region doc_name,
                     parse_arn arn = (Some region, Some doc_name) ∧ doc_name ≠ ""))
    as Hclassify.
  { intros c st0 w0 Hfs Hst (-> & Hcases)%classify_document_frame.
    destruct (call_get_document_world c doc_name w0) as (-> & _). split; [done |].
    destruct Hcases as [[_ ->] | [[_ ->] | (e & _ & ->)]]; cbn; rewrite ?Hst; eauto 10. }
  destruct (call_boto3_client_world region w) as (Hfs & _).
  destruct (ssm_clients st !! region) as [c|]; [by apply Hclassify |].
  destruct (call_boto3_client region w).1 as [c|e]; [by apply Hclassify |].
  intros [= <- <- <-]. split; [done | by left].
Qed.

Lemma for_arns_fs (arns : list string) st w fl st' w' :
  for_arns arns old st w = (fl, st', w') → fs w' = fs w.
Proof.
  apply (for_arns_ind old (fun _ w _ w' => fs w' = fs w)); [done | congruence |].
  intros arn st0 w0 fl0 st1 w1 _ H. by apply process_arn_frame in H as [? _].
Qed.

(** The results of the loop are lines of the input that have a region
    and a name. *)
Lemma for_arns_filtered (arns : list string) st w fl st' w' :
  for_arns arns old st w = (fl, st', w') →
  ∀ a, a ∈ filtered_arns st' →
    a ∈ filtered_arns st
    ∨ a ∈ arns ∧ ∃ region doc_name, parse_arn a = (Some region, Some doc_name) ∧ doc_name ≠ "".
Proof.
  revert st w. induction arns as [|arn rest IH]; intros st w.
  { intros [= <- <- <-]. by left. }
  rewrite for_arns_cons.
  destruct (process_arn arn old st w) as [[fl1 st1] w1] eqn:H1.
  apply process_arn_frame in H1 as [_ Hf].
  assert (∀ a, a ∈ filtered_arns st1 →
            a ∈ filtered_arns st
            ∨ a ∈ arn :: rest
              ∧ ∃ region doc_name, parse_arn a = (Some region, Some doc_name) ∧ doc_name ≠ "")
    as Hstep.
  { intros a Ha. destruct Hf as [Hf | [Hf Hparse]]; rewrite Hf in Ha; [by left |].
    apply elem_of_app in Ha as [Ha | ->%list_elem_of_singleton]; [by left |].
    right. split; [left | done]. }
  destruct fl1; [| by intros [= <- <- <-] ..].
  intros Hrest a Ha. destruct (IH _ _ Hrest a Ha) as [Ha1 | [Ha1 Hp]]; [by apply Hstep |].
  right. split; [by right | done].
Qed.

(** A failure of one item leaves the loop at [Next], with the same results. *)
Lemma per_item_failure_skips arn st w :
  per_item_failure arn st w →
  ∃ st' w', process_arn arn old st w = (Next, st', w')
    ∧ filtered_arns st' = filtered_arns st.
Proof.
  assert (∀ region doc_name c clients w1 r w2,
            parse_arn arn = (Some region, Some doc_name) → doc_name ≠ "" →
            obtains_client region (ssm_clients st) w c clients w1 →
            call_get_document c doc_name w1 = (r, w2) →
            ∀ v, handle_fetch (E := E) r = Ok v →
            ∃ st1, ssm_clients st1 = clients ∧ filtered_arns st1 = filtered_arns st
              ∧ process_arn arn old st w = (keep_if_outdated arn v old st1, w2))
    as Hfetch.
  { intros region doc_name c clients w1 r w2 Hp Hn Hclient Hget v Hv.
    rewrite (process_arn_parsed old arn region doc_name st w Hp Hn).
    destruct Hclient as [c Hc | c w1 Hc Hmk].
    - exists (counted st). rewrite Hc, classify_document_eq, Hget. cbn. by rewrite Hv.
    - exists (cached region c (counted st)).
      rewrite Hc, Hmk. cbn [fst snd].
      rewrite classify_document_eq, Hget. cbn. by rewrite Hv. }
  intros [Hp | region doc_name e w' Hp Hn Hc Hmk Hcred Hexn
          | region doc_name c clients w1 e w2 Hp Hn Hclient Hget Hexn
          | region doc_name c clients w1 body e w2 Hp Hn Hclient Hget Hbody Hjson Hexn].
  - rewrite process_arn_skip by (by left). by eexists _, _.
  - rewrite (process_arn_parsed old arn region doc_name st w Hp Hn), Hc, Hmk. cbn.
    rewrite Hcred, Hexn. by eexists _, _.
  - destruct (Hfetch _ _ _ _ _ _ _ Hp Hn Hclient Hget PyNone) as (st1 & _ & Hst1 & ->).
    { by apply (handle_fetch_exception (Raise e) e). }
    by eexists _, _.
  - destruct (Hfetch _ _ _ _ _ _ _ Hp Hn Hclient Hget PyNone) as (st1 & _ & Hst1 & ->).
    { apply (handle_fetch_exception _ e); [| done]. cbn.
      by destruct (String.eqb_spec body ""). }
    by eexists _, _.
Qed.

Lemma item_without_failure_continues arn st w :
  item_without_failure old arn st w →
  ∃ st' w', process_arn arn old st w = (Next, st', w').
Proof.
  intros [region doc_name c clients w1 resp w2 v Hp Hn Hclient Hget Hv Hverdict].
  apply handle_fetch_decoded in Hv.
  rewrite (process_arn_parsed old arn region doc_name st w Hp Hn).
  assert (∀ st1, ∃ st', keep_if_outdated arn v old st1 = (Next, st')) as Hkeep.
  { intros st1. unfold keep_if_outdated.
    destruct Hverdict as [-> | [b ->]]; [by eexists |].
    destruct (truthy v); [| by eexists]. destruct b; by eexists. }
  destruct Hclient as [c Hc | c w1 Hc Hmk].
  - rewrite Hc, classify_document_eq, Hget. cbn. rewrite Hv.
    destruct (Hkeep (counted st)) as [st' ->]. by eexists _, _.
  - rewrite Hc, Hmk. cbn [fst snd]. rewrite classify_document_eq, Hget. cbn. rewrite Hv.
    destruct (Hkeep (cached region c (counted st))) as [st' ->]. by eexists _, _.
Qed.

Lemma only_item_failures_completes (arns : list string) st w :
  only_item_failures old arns st w →
  ∃ st' w', for_arns arns old st w = (Next, st', w').
Proof.
  induction 1 as [st w | arn rest st w Hitem _ IH]; [by eexists _, _ |].
  assert (∃ st1 w1, process_arn arn old st w = (Next, st1, w1)) as (st1 & w1 & H1).
  { destruct Hitem as [(st1 & w1 & H1 & _)%per_item_failure_skips
                      | H1%item_without_failure_continues]; eauto. }
  rewrite (for_arns_Next old arn rest st w st1 w1 H1). by apply IH.
Qed.

(** A failure of the credentials when a client is made ends the run. *)
Lemma credentials_failure_aborts arn (rest : list string) region (doc_name : string)
    (e : exn) st w w' :
  parse_arn arn = (Some region, Some doc_name) → doc_name ≠ "" →
  ssm_clients st !! region = None →
  call_boto3_client region w = (Raise e, w') →
  is_credentials_error e = true →
  for_arns (arn :: rest) old st w = (Return false, counted st, w').
Proof.
  intros Hp Hn Hc Hmk He. apply for_arns_stop; [| done].
  rewrite (process_arn_parsed old arn region doc_name st w Hp Hn), Hc, Hmk. cbn.
  by rewrite He.
Qed.

End Skipping.

Lemma arns_of_lines_blank (lines : list string) :
  Forall (fun line => strip line = "") lines → arns_of_lines lines = [].
Proof.
  unfold arns_of_lines. induction 1 as [|line lines Hline _ IH]; [done |].
  rewrite fmap_cons, filter_cons_False by (by rewrite Hline; intros ?). done.
Qed.

(** ** The claims on skipping and aborting *)

(** C10: a line of the shape [arn:aws:ssm:<region>:<account-id>:document/]
    is parsed to its region and the empty name; the driver skips it as it
    skips a line that does not parse: no call is made, the cache and the
    results stay as they are, the loop goes on with the next line, and the
    line is never among the results. *)
Theorem empty_document_name_is_skipped (E : Env) (old : list string)
    (region account : string) :
  segment region → segment account →
  parse_arn (arn_shape region account "") = (Some region, Some "")
  ∧ (∀ (st : locals (Client E)) (w : world E),
       process_arn (arn_shape region account "") old st w = (Next, counted st, w))
  ∧ (∀ (rest : list string) (st : locals (Client E)) (w : world E),
       for_arns (arn_shape region account "" :: rest) old st w
       = for_arns rest old (counted st) w)
  ∧ (∀ (arns : list string) (st : locals (Client E)) (w : world E) fl st' w',
       for_arns arns old st w = (fl, st', w') →
       arn_shape region account "" ∉ filtered_arns st →
       arn_shape region account "" ∉ filtered_arns st').
Proof.
  intros Hr Ha.
  assert (parse_arn (arn_shape region account "") = (Some region, Some "")) as Hp.
  { rewrite <- (append_nil_r (arn_shape region account "")).
    apply parse_arn_complete; auto. }
  assert (∀ (st : locals (Client E)) (w : world E),
            process_arn (arn_shape region account "") old st w = (Next, counted st, w))
    as Hskip by (intros st w; apply process_arn_skip; eauto).
  split; [done |]. split; [done |]. split.
  - intros rest st w. by apply for_arns_Next.
  - intros arns st w fl st' w' Hrun Hnot Hin.
    destruct (for_arns_filtered old arns st w fl st' w' Hrun _ Hin)
      as [? | (_ & r & n & Hp' & Hn)]; [done |].
    rewrite Hp in Hp'. by injection Hp' as _ <-.
Qed.

Lemma empty_document_name_is_skipped_witness :
  parse_arn Fixture.arn_no_name = (Some "us-east-1", Some "")
  ∧ (∀ (st : locals (Client Fixture.healthy)) (w : world Fixture.healthy),
       process_arn Fixture.arn_no_name DEFAULT_OLD_RUNTIMES st w = (Next, counted st, w))
  ∧ (∀ (rest : list string) (st : locals (Client Fixture.healthy)) (w : world Fixture.healthy),
       for_arns (Fixture.arn_no_name :: rest) DEFAULT_OLD_RUNTIMES st w
       = for_arns rest DEFAULT_OLD_RUNTIMES (counted st) w)
  ∧ (∀ (arns : list string) (st : locals (Client Fixture.healthy))
       (w : world Fixture.healthy) fl st' w',
       for_arns arns DEFAULT_OLD_RUNTIMES st w = (fl, st', w') →
       Fixture.arn_no_name ∉ filtered_arns st →
       Fixture.arn_no_name ∉ filtered_arns st').
Proof.
  apply (empty_document_name_is_skipped Fixture.healthy DEFAULT_OLD_RUNTIMES
           "us-east-1" "123456789012").
  - split; [discriminate | reflexivity].
  - split; [discriminate | reflexivity].
Defined.

(** C6: a malformed ARN, a failure to make the client that is not about
    credentials, a failure of the fetch and a failure to decode the body
    each end the iteration at [Next] with the results unchanged, so the
    loop goes on with the lines that are left; and a run in which nothing
    else fails (the SDK is there, the input is read, the output can be
    written, every line meets one of these failures or none) returns
    [True]. *)
Theorem per_item_failures_are_skipped (E : Env) (old : list string) :
  (∀ arn (st : locals (Client E)) (w : world E),
     per_item_failure arn st w →
     ∃ st' w',
       process_arn arn old st w = (Next, st', w')
       ∧ filtered_arns st' = filtered_arns st
       ∧ ∀ rest, for_arns (arn :: rest) old st w = for_arns rest old st' w')
  ∧ (∀ input_file output_file (w : world E) lines,
       BOTO3_AVAILABLE E = true →
       read_lines input_file (fs w) = Ok lines →
       output_file ∉ fs_denied (fs w) →
       only_item_failures old (arns_of_lines lines) initial_locals w →
       ∃ w', filter_ssm_documents input_file output_file old w = (Ok true, w')).
Proof.
  split.
  - intros arn st w (st' & w' & Hstep & Hres)%(per_item_failure_skips old).
    exists st', w'. split; [done |]. split; [done |].
    intros rest. by apply for_arns_Next.
  - intros input_file output_file w lines Hboto Hread Hout Honly.
    unfold filter_ssm_documents. rewrite Hboto, Hread. cbn [negb].
    destruct (arns_of_lines lines) as [|arn arns] eqn:Harns.
    { destruct (write_output_ok output_file "" w Hout) as (w' & -> & _). by exists w'. }
    destruct (only_item_failures_completes old _ _ _ Honly) as (st' & w1 & Hloop).
    rewrite Hloop. apply for_arns_fs in Hloop. rewrite <- Hloop in Hout.
    destruct (write_output_ok output_file (output_text (filtered_arns st')) w1 Hout)
      as (w' & -> & _).
    by exists w'.
Qed.

Lemma per_item_failures_are_skipped_witness :
  ∃ w',
    filter_ssm_documents Fixture.input_file Fixture.output_file DEFAULT_OLD_RUNTIMES
      (Fixture.world_with Fixture.healthy 0
         (Fixture.text_of ["not-an-arn"; Fixture.arn_Missing; Fixture.arn_Broken;
                           Fixture.arn_MyDoc]) ∅)
    = (Ok true, w').
Proof.
  eapply (proj2 (per_item_failures_are_skipped Fixture.healthy DEFAULT_OLD_RUNTIMES)
            Fixture.input_file Fixture.output_file _
            (text_lines (universal_newlines
               (Fixture.text_of ["not-an-arn"; Fixture.arn_Missing; Fixture.arn_Broken;
                                 Fixture.arn_MyDoc])))).
  - reflexivity.
  - vm_compute. reflexivity.
  - apply not_elem_of_empty.
  - replace (arns_of_lines _)
      with ["not-an-arn"; Fixture.arn_Missing; Fixture.arn_Broken; Fixture.arn_MyDoc]
      by (vm_compute; reflexivity).
    apply item_then_rest.
    { left. apply malformed_arn. vm_compute. reflexivity. }
    intros st1 w1 H1. vm_compute in H1. injection H1 as <- <-.
    apply item_then_rest.
    { left. eapply fetch_failure with (region := "eu-west-1") (doc_name := "Missing").
      - vm_compute. reflexivity.
      - discriminate.
      - eapply client_made; [vm_compute; reflexivity | reflexivity].
      - reflexivity.
      - reflexivity. }
    intros st2 w2 H2. vm_compute in H2. injection H2 as <- <-.
    apply item_then_rest.
    { left. eapply json_decode_failure with (region := "eu-west-1") (doc_name := "Broken").
      - vm_compute. reflexivity.
      - discriminate.
      - eapply client_from_cache. vm_compute. reflexivity.
      - reflexivity.
      - discriminate.
      - vm_compute. reflexivity.
      - reflexivity. }
    intros st3 w3 H3. vm_compute in H3. injection H3 as <- <-.
    apply item_then_rest.
    { right. eapply item_classified with (region := "us-east-1") (doc_name := "MyDoc").
      - vm_compute. reflexivity.
      - discriminate.
      - eapply client_made; [vm_compute; reflexivity | reflexivity].
      - reflexivity.
      - vm_compute. reflexivity.
      - right. exists true. vm_compute. reflexivity. }
    intros st4 w4 H4. apply no_item_left.
Defined.

(** C7, as stated, fails when the output file cannot be opened: the
    [except IOError] of the empty-input branch returns [False]. *)
Lemma empty_input_unwritable_output :
  ¬ empty_input_succeeds Fixture.input_file Fixture.output_file DEFAULT_OLD_RUNTIMES
      (Fixture.world_with Fixture.healthy 0
         (Fixture.nl +:+ "   " +:+ Fixture.nl) {[ Fixture.output_file ]}).
Proof.
  intros H.
  destruct (H [Fixture.nl; "   " +:+ Fixture.nl]) as [Hrun _].
  - vm_compute. reflexivity.
  - repeat constructor.
  - vm_compute in Hrun. discriminate Hrun.
Qed.

(** C7, amended: with the SDK at hand and an input file that has no line
    that is not blank, the driver parses nothing and calls nothing; when
    the output file can be opened it is left empty and the run returns
    [True]; when it cannot, the run returns [False] and leaves the world
    as it was. *)
Theorem empty_input_makes_empty_output (E : Env) (input_file output_file : string)
    (old : list string) (w : world E) (lines : list string) :
  BOTO3_AVAILABLE E = true →
  read_lines input_file (fs w) = Ok lines →
  Forall (fun line => strip line = "") lines →
  (output_file ∉ fs_denied (fs w) →
     ∃ w', filter_ssm_documents input_file output_file old w = (Ok true, w')
       ∧ fs_data (fs w') !! output_file = Some ""
       ∧ calls w' = calls w ∧ service w' = service w)
  ∧ (output_file ∈ fs_denied (fs w) →
     filter_ssm_documents input_file output_file old w = (Ok false, w)).
Proof.
  intros Hboto Hread Hblank%arns_of_lines_blank.
  unfold filter_ssm_documents. rewrite Hboto, Hread, Hblank. cbn [negb]. split.
  - apply write_output_ok.
  - apply write_output_denied.
Qed.

Lemma empty_input_makes_empty_output_witness :
  ∃ w',
    filter_ssm_documents Fixture.input_file Fixture.output_file DEFAULT_OLD_RUNTIMES
      (Fixture.world_with Fixture.healthy 0 (Fixture.nl +:+ "   " +:+ Fixture.nl) ∅)
    = (Ok true, w')
    ∧ fs_data (fs w') !! Fixture.output_file = Some ""
    ∧ calls w' = [] ∧ service w' = 0.
Proof.
  apply (empty_input_makes_empty_output Fixture.healthy Fixture.input_file
           Fixture.output_file DEFAULT_OLD_RUNTIMES
           (Fixture.world_with Fixture.healthy 0 (Fixture.nl +:+ "   " +:+ Fixture.nl) ∅)
           [Fixture.nl; "   " +:+ Fixture.nl]).
  - reflexivity.
  - vm_compute. reflexivity.
  - repeat constructor.
  - apply not_elem_of_empty.
Defined.

(** C2 fails for the fetch: the service has clients for every region and
    finds the credentials missing when a document is fetched. The
    [except Exception] of [get_document_content] turns the error into
    [None]; both lines are tried, nothing is kept, and the run returns
    [True] with an empty output file, where the claim has it abort with
    [False]. *)
Theorem credentials_failure_at_fetch_is_skipped :
  let r :=
    filter_ssm_documents
      Fixture.input_file Fixture.output_file DEFAULT_OLD_RUNTIMES
      (Fixture.world_with Fixture.late_credentials_failure 0
         (Fixture.text_of [Fixture.arn_MyDoc; Fixture.arn_NewDoc]) ∅) in
  r.1 = Ok true
  ∧ Fixture.output_of r = Some ""
  ∧ calls r.2 = [ NewClient "us-east-1" (Ok "us-east-1");
                  GetDocument "us-east-1" "MyDoc";
                  GetDocument "us-east-1" "NewDoc" ].
Proof. vm_compute. repeat split. Qed.

(** The other half of C2 holds: a credentials failure when the client is
    made ends the run with [False], and nothing is written. *)
Lemma credentials_failure_at_construction_aborts (E : Env)
    (input_file output_file : string) (old : list string) (w : world E)
    (lines : list string) (arn : string) (rest : list string)
    (region doc_name : string) (e : exn) (w' : world E) :
  BOTO3_AVAILABLE E = true →
  read_lines input_file (fs w) = Ok lines →
  arns_of_lines lines = arn :: rest →
  parse_arn arn = (Some region, Some doc_name) → doc_name ≠ "" →
  call_boto3_client region w = (Raise e, w') →
  is_credentials_error e = true →
  filter_ssm_documents input_file output_file old w = (Ok false, w').
Proof.
  intros Hboto Hread Harns Hp Hn Hmk He.
  unfold filter_ssm_documents. rewrite Hboto, Hread, Harns. cbn [negb].
  by rewrite (credentials_failure_aborts old arn rest region doc_name e initial_locals w w').
Qed.

(** ** The cache of clients *)

Section Cache.
Context {E : Env} (old : list string).
Implicit Types (st : locals (Client E)) (w : world E) (arn region : string).
Implicit Types (clients : gmap string (Client E)) (evs : list (call (Client E))).

Lemma cache_follows_refl clients evs :
  (∀ region, constructed region evs = []) → cache_follows clients clients evs.
Proof. intros H region. rewrite H. by destruct (clients !! region). Qed.

Lemma cache_follows_trans clients0 clients1 clients2 evs1 evs2 :
  cache_follows clients0 clients1 evs1 →
  cache_follows clients1 clients2 evs2 →
  cache_follows clients0 clients2 (evs1 ++ evs2).
Proof.
  intros H1 H2 region. specialize (H1 region). specialize (H2 region).
  rewrite constructed_app.
  destruct (clients0 !! region) as [c|].
  - destruct H1 as [-> H1]. rewrite H1 in H2. by destruct H2 as [-> ->].
  - rewrite H1. destruct (clients1 !! region) as [c|].
    + by destruct H2 as [-> ->].
    + by rewrite H2.
Qed.

Lemma cache_follows_insert clients region (c : Client E) evs :
  clients !! region = None →
  (∀ r, constructed r evs = []) →
  cache_follows clients (<[region := c]> clients) (NewClient region (Ok c) :: evs).
Proof.
  intros Hnone Hevs r. cbn. rewrite Hevs.
  destruct (String.eqb_spec region r) as [<- | Hne].
  - by rewrite Hnone, lookup_insert_eq.
  - rewrite lookup_insert_ne by done. by destruct (clients !! r).
Qed.

Lemma cache_follows_one clients clients' evs region :
  cache_follows clients clients' evs → length (constructed region evs) ≤ 1.
Proof.
  intros H. specialize (H region). destruct (clients !! region).
  - destruct H as [-> _]. cbn. lia.
  - rewrite H. destruct (clients' !! region); cbn; lia.
Qed.

(** The calls and the cache of [classify_document]: one fetch, with the
    client it was given, and the cache as it was. *)
Lemma classify_document_calls arn (doc_name : string) (c : Client E) st w fl st' w' :
  classify_document arn doc_name c old st w = (fl, st', w') →
  calls w' = calls w ++ [GetDocument c doc_name] ∧ ssm_clients st' = ssm_clients st.
Proof.
  intros (-> & Hcases)%classify_document_frame.
  destruct (call_get_document_world c doc_name w) as (_ & -> & _). split; [done |].
  by destruct Hcases as [[_ ->] | [[_ ->] | (e & _ & ->)]].
Qed.

(** One iteration: the cache follows the calls. *)
Lemma process_arn_cache arn st w fl st' w' :
  process_arn arn old st w = (fl, st', w') →
  ∃ evs, calls w' = calls w ++ evs ∧ cache_follows (ssm_clients st) (ssm_clients st') evs.
Proof.
  destruct (parse_arn_cases arn) as [Hskip | (region & doc_name & Hp & Hn)].
  { rewrite process_arn_skip by done. intros [= <- <- <-]. exists [].
    split; [by rewrite app_nil_r | by apply cache_follows_refl]. }
  rewrite (process_arn_parsed old arn region doc_name st w Hp Hn).
  destruct (ssm_clients st !! region) as [c|] eqn:Hc.
  { intros [Hcalls Hcache]%classify_document_calls. cbn in Hcache.
    exists [GetDocument c doc_name]. split; [done |].
    rewrite Hcache. by apply cache_follows_refl. }
  destruct (call_boto3_client_world region w) as (_ & Hcalls1 & _).
  destruct (call_boto3_client region w).1 as [c|e].
  - intros [Hcalls Hcache]%classify_document_calls. cbn in Hcache.
    exists [NewClient region (Ok c); GetDocument c doc_name]. split.
    + by rewrite Hcalls, Hcalls1, <- app_assoc.
    + rewrite Hcache. by apply cache_follows_insert.
  - intros [= <- <- <-]. exists [NewClient region (Raise e)]. split; [done |].
    by apply cache_follows_refl.
Qed.

Lemma for_arns_cache (arns : list string) st w fl st' w' :
  for_arns arns old st w = (fl, st', w') →
  ∃ evs, calls w' = calls w ++ evs ∧ cache_follows (ssm_clients st) (ssm_clients st') evs.
Proof.
  apply (for_arns_ind old
           (fun st w st' w' =>
              ∃ evs, calls w' = calls w ++ evs
                     ∧ cache_follows (ssm_clients st) (ssm_clients st') evs)).
  - intros st0 w0. exists []. split; [by rewrite app_nil_r | by apply cache_follows_refl].
  - intros st0 w0 st1 w1 st2 w2 (evs1 & Hc1 & Hf1) (evs2 & Hc2 & Hf2).
    exists (evs1 ++ evs2). split; [by rewrite Hc2, Hc1, app_assoc |].
    by eapply cache_follows_trans.
  - intros arn st0 w0 fl0 st1 w1 _. apply process_arn_cache.
Qed.

End Cache.

(** C9: over a run of the loop the cache follows the calls: a region
    that is cached keeps its client and no client is made for it again,
    and for a region that is not, at most one client is made, the one
    that is cached afterwards. A line whose region is cached is handled
    with the cached client and without a construction; a line whose
    region is not cached has a client made, which enters the cache, when
    the construction succeeds; and after a construction failure that is
    not about credentials the region is still not cached, so that the
    next line of the region has the construction tried again. *)
Theorem one_client_per_region (E : Env) (old : list string) :
  (∀ (arns : list string) (st : locals (Client E)) (w : world E) fl st' w',
     for_arns arns old st w = (fl, st', w') →
     ∃ evs, calls w' = calls w ++ evs
       ∧ cache_follows (ssm_clients st) (ssm_clients st') evs
       ∧ ∀ region, length (constructed region evs) ≤ 1)
  ∧ (∀ arn region doc_name c (st : locals (Client E)) (w : world E),
       parse_arn arn = (Some region, Some doc_name) → doc_name ≠ "" →
       ssm_clients st !! region = Some c →
       ∃ fl st' w',
         process_arn arn old st w = (fl, st', w')
         ∧ calls w' = calls w ++ [GetDocument c doc_name]
         ∧ ssm_clients st' = ssm_clients st)
  ∧ (∀ arn region doc_name c (st : locals (Client E)) (w w1 : world E),
       parse_arn arn = (Some region, Some doc_name) → doc_name ≠ "" →
       ssm_clients st !! region = None →
       call_boto3_client region w = (Ok c, w1) →
       ∃ fl st' w',
         process_arn arn old st w = (fl, st', w')
         ∧ calls w' = calls w ++ [NewClient region (Ok c); GetDocument c doc_name]
         ∧ ssm_clients st' = <[region := c]> (ssm_clients st))
  ∧ (∀ arn region doc_name e (st : locals (Client E)) (w w1 : world E),
       parse_arn arn = (Some region, Some doc_name) → doc_name ≠ "" →
       ssm_clients st !! region = None →
       call_boto3_client region w = (Raise e, w1) →
       is_credentials_error e = false → is_Exception e = true →
       process_arn arn old st w = (Next, counted st, w1)
       ∧ calls w1 = calls w ++ [NewClient region (Raise e)]
       ∧ ssm_clients (counted st) !! region = None).
Proof.
  split; [| split; [| split]].
  - intros arns st w fl st' w' (evs & Hcalls & Hcache)%for_arns_cache.
    exists evs. split; [done |]. split; [done |]. intros region.
    by eapply cache_follows_one.
  - intros arn region doc_name c st w Hp Hn Hc.
    destruct (process_arn arn old st w) as [[fl st'] w'] eqn:Hstep.
    exists fl, st', w'. split; [done |].
    rewrite (process_arn_parsed old arn region doc_name st w Hp Hn), Hc in Hstep.
    by apply classify_document_calls in Hstep.
  - intros arn region doc_name c st w w1 Hp Hn Hc Hmk.
    destruct (process_arn arn old st w) as [[fl st'] w'] eqn:Hstep.
    exists fl, st', w'. split; [done |].
    rewrite (process_arn_parsed old arn region doc_name st w Hp Hn), Hc in Hstep.
    destruct (call_boto3_client_world region w) as (_ & Hcalls1 & _).
    rewrite Hmk in Hstep, Hcalls1. cbn [fst snd] in Hstep, Hcalls1.
    apply classify_document_calls in Hstep as [-> ->].
    by rewrite Hcalls1, <- app_assoc.
  - intros arn region doc_name e st w w1 Hp Hn Hc Hmk Hcred Hexn.
    rewrite (process_arn_parsed old arn region doc_name st w Hp Hn), Hc.
    destruct (call_boto3_client_world region w) as (_ & Hcalls1 & _).
    rewrite Hmk in Hcalls1 |- *. cbn [fst snd] in Hcalls1 |- *.
    by rewrite Hcred, Hexn.
Qed.

Lemma one_client_per_region_witness :
  ∃ evs,
    calls (for_arns (E := Fixture.slow_start)
             [Fixture.arn_MyDoc; Fixture.arn_NewDoc; Fixture.arn_MyDoc]
             DEFAULT_OLD_RUNTIMES initial_locals
             (Fixture.world_with Fixture.slow_start 0 "" ∅)).2
    = [] ++ evs
    ∧ cache_follows ∅
        (ssm_clients (for_arns (E := Fixture.slow_start)
             [Fixture.arn_MyDoc; Fixture.arn_NewDoc; Fixture.arn_MyDoc]
             DEFAULT_OLD_RUNTIMES initial_locals
             (Fixture.world_with Fixture.slow_start 0 "" ∅)).1.2)
        evs
    ∧ ∀ region, length (constructed region evs) ≤ 1.
Proof.
  eapply (proj1 (one_client_per_region Fixture.slow_start DEFAULT_OLD_RUNTIMES)
            [Fixture.arn_MyDoc; Fixture.arn_NewDoc; Fixture.arn_MyDoc]
            initial_locals (Fixture.world_with Fixture.slow_start 0 "" ∅)).
  vm_compute. reflexivity.
Defined.

(** ** What the run writes *)

Section Results.
Context {E : Env} (old : list string).
Implicit Types (st : locals (Client E)) (w : world E) (arn region : string).

(** With the client at hand, the iteration is the fetch and the
    classification. *)
Lemma process_arn_with_client arn region (doc_name : string) (c : Client E)
    (clients : gmap string (Client E)) st w w1 :
  parse_arn arn = (Some region, Some doc_name) → doc_name ≠ "" →
  obtains_client region (ssm_clients st) w c clients w1 →
  ∃ st1, ssm_clients st1 = clients ∧ filtered_arns st1 = filtered_arns st
    ∧ process_arn arn old st w = classify_document arn doc_name c old st1 w1.
Proof.
  intros Hp Hn Hclient. rewrite (process_arn_parsed old arn region doc_name st w Hp Hn).
  destruct Hclient as [c Hc | c w1 Hc Hmk].
  - exists (counted st). by rewrite Hc.
  - exists (cached region c (counted st)). by rewrite Hc, Hmk.
Qed.

Lemma handle_fetch_truthy (r : res response) (v : pyval) :
  handle_fetch (E := E) r = Ok v → truthy v = true →
  ∃ resp, r = Ok resp ∧ decode_response (E := E) (Ok resp) = Ok v.
Proof.
  unfold handle_fetch. intros Hh Hv.
  destruct (decode_response r) as [v'|e] eqn:Hd.
  - injection Hh as ->. destruct r as [resp|e]; [eauto | discriminate].
  - assert (v = PyNone) as -> by (destruct e; try destruct (is_Exception _); congruence).
    discriminate.
Qed.

Lemma fetched_outdated_kept arn st w :
  fetched_outdated old arn st w →
  ∃ st1 w2, filtered_arns st1 = filtered_arns st
    ∧ process_arn arn old st w = (Next, found arn st1, w2).
Proof.
  intros [region doc_name c clients w1 resp w2 v Hp Hn Hclient Hget Hv Htrue Hout].
  destruct (process_arn_with_client arn region doc_name c clients st w w1 Hp Hn Hclient)
    as (st1 & _ & Hst1 & ->).
  exists st1, w2. split; [done |].
  rewrite classify_document_eq, Hget. cbn [fst snd].
  rewrite (handle_fetch_decoded _ _ Hv). unfold keep_if_outdated. by rewrite Htrue, Hout.
Qed.

Lemma found_not_same arn st st1 :
  filtered_arns st1 = filtered_arns st →
  filtered_arns (found arn st1) ≠ filtered_arns st.
Proof.
  intros H1 H2. cbn in H2. rewrite H1 in H2.
  apply (f_equal length) in H2. rewrite length_app in H2. cbn in H2. lia.
Qed.

(** An iteration that goes on either kept the ARN, whose fetched
    document is outdated, or left the results as they were. *)
Lemma process_arn_Next arn st w st' w' :
  process_arn arn old st w = (Next, st', w') →
  fetched_outdated old arn st w ∧ filtered_arns st' = filtered_arns st ++ [arn]
  ∨ ¬ fetched_outdated old arn st w ∧ filtered_arns st' = filtered_arns st.
Proof.
  intros Hstep.
  assert (filtered_arns st' = filtered_arns st → ¬ fetched_outdated old arn st w) as Hnot.
  { intros Hsame (st1 & w2 & Hst1 & Hkept)%fetched_outdated_kept.
    rewrite Hkept in Hstep. injection Hstep as <- <-.
    by apply (found_not_same arn st st1). }
  assert (∀ region doc_name c clients w1,
            parse_arn arn = (Some region, Some doc_name) → doc_name ≠ "" →
            obtains_client region (ssm_clients st) w c clients w1 →
            fetched_outdated old arn st w ∧ filtered_arns st' = filtered_arns st ++ [arn]
            ∨ filtered_arns st' = filtered_arns st) as Hclient.
  { intros region doc_name c clients w1 Hp Hn Hclient.
    destruct (process_arn_with_client arn region doc_name c clients st w w1 Hp Hn Hclient)
      as (st1 & _ & Hst1 & Heq).
    rewrite Heq, classify_document_eq in Hstep.
    destruct (handle_fetch (call_get_document c doc_name w1).1) as [v|e] eqn:Hh;
      [| discriminate].
    destruct (keep_if_outdated_spec old arn v st1)
      as (fl0 & st0 & Hk & [[-> [(Htrue & Hout & ->) | [_ ->]]] | (e & -> & _)]);
      rewrite Hk in Hstep; [| | discriminate].
    - injection Hstep as <- <-. left. split; [| cbn; by rewrite Hst1].
      destruct (handle_fetch_truthy _ _ Hh Htrue) as (resp & Hr & Hd).
      apply (fetched_is_outdated E old arn st w region doc_name c clients w1 resp
               (call_get_document c doc_name w1).2 v); try done.
      rewrite <- Hr. by destruct (call_get_document c doc_name w1).
    - injection Hstep as <- <-. by right. }
  destruct (parse_arn_cases arn) as [Hskip | (region & doc_name & Hp & Hn)].
  { rewrite process_arn_skip in Hstep by done. injection Hstep as <- <-.
    right. split; [by apply Hnot | done]. }
  assert (fetched_outdated old arn st w ∧ filtered_arns st' = filtered_arns st ++ [arn]
          ∨ filtered_arns st' = filtered_arns st) as [? | Hsame]; [| by left | by right; auto].
  destruct (ssm_clients st !! region) as [c|] eqn:Hc.
  { eapply Hclient; [done | done |]. by apply client_from_cache. }
  destruct (call_boto3_client region w) as [[c|e] w1] eqn:Hmk.
  { eapply Hclient; [done | done |]. by apply client_made. }
  rewrite (process_arn_parsed old arn region doc_name st w Hp Hn), Hc, Hmk in Hstep.
  injection Hstep as _ <- _. by right.
Qed.

Lemma process_arn_Return arn st w (b : bool) st' w' :
  process_arn arn old st w = (Return b, st', w') → b = false.
Proof.
  destruct (parse_arn_cases arn) as [Hskip | (region & doc_name & Hp & Hn)].
  { by rewrite process_arn_skip. }
  rewrite (process_arn_parsed old arn region doc_name st w Hp Hn).
  assert (∀ c st0 w0, classify_document arn doc_name c old st0 w0 = (Return b, st', w') →
                      b = false) as Hclassify.
  { intros c st0 w0 (_ & [[? _] | [[? _] | (e & ? & _)]])%classify_document_frame;
      discriminate. }
  destruct (ssm_clients st !! region); [by apply Hclassify |].
  destruct (call_boto3_client region w).1 as [c|e]; [by apply Hclassify |].
  destruct (is_credentials_error e); [congruence |].
  destruct (is_Exception e); discriminate.
Qed.

Lemma for_arns_Return (arns : list string) st w (b : bool) st' w' :
  for_arns arns old st w = (Return b, st', w') → b = false.
Proof.
  revert st w. induction arns as [|arn rest IH]; intros st w; [discriminate |].
  rewrite for_arns_cons.
  destruct (process_arn arn old st w) as [[[] st1] w1] eqn:H1; [by apply IH | | discriminate].
  intros [= -> _ _]. by apply process_arn_Return in H1.
Qed.

(** The results of the loop are a part of its input, in the order of
    the input. *)
Lemma for_arns_sublist (arns : list string) st w fl st' w' :
  for_arns arns old st w = (fl, st', w') →
  ∃ kept, filtered_arns st' = filtered_arns st ++ kept ∧ kept `sublist_of` arns.
Proof.
  revert st w. induction arns as [|arn rest IH]; intros st w.
  { intros [= <- <- <-]. exists []. by rewrite app_nil_r. }
  rewrite for_arns_cons.
  destruct (process_arn arn old st w) as [[fl1 st1] w1] eqn:H1.
  apply process_arn_frame in H1 as [_ Hf].
  assert (∃ kept, filtered_arns st1 = filtered_arns st ++ kept
                  ∧ ∀ more, more `sublist_of` rest → kept ++ more `sublist_of` arn :: rest)
    as (kept1 & Hk1 & Hsub1).
  { destruct Hf as [Hf | [Hf _]].
    - exists []. rewrite app_nil_r. split; [done |]. intros more. apply sublist_cons.
    - exists [arn]. split; [done |]. intros more. apply sublist_skip. }
  destruct fl1.
  - intros (kept & Hk & Hsub)%IH. exists (kept1 ++ kept).
    rewrite Hk, Hk1, app_assoc. split; [done |]. by apply Hsub1.
  - intros [= <- <- <-]. exists kept1. split; [done |].
    rewrite <- (app_nil_r kept1). apply Hsub1, sublist_nil_l.
  - intros [= <- <- <-]. exists kept1. split; [done |].
    rewrite <- (app_nil_r kept1). apply Hsub1, sublist_nil_l.
Qed.

End Results.

(** ** A service whose answers do not depend on its state *)

Section Stateless.
Context {E : Env} (old : list string) (Hs : stateless E).
Implicit Types (st : locals (Client E)) (w : world E) (arn region : string).

Lemma stateless_client region w (s : Service E) :
  (call_boto3_client region w).1 = (boto3_client E region s).1.
Proof.
  destruct (call_boto3_client_world region w) as (_ & _ & ->). apply Hs.
Qed.

Lemma stateless_document (c : Client E) (doc_name : string) w (s : Service E) :
  (call_get_document c doc_name w).1 = (ssm_get_document E c doc_name s).1.
Proof.
  destruct (call_get_document_world c doc_name w) as (_ & _ & ->). apply Hs.
Qed.

Lemma classified_outdated_parsed (s : Service E) arn region (doc_name : string) :
  parse_arn arn = (Some region, Some doc_name) → doc_name ≠ "" →
  classified_outdated s old arn
  = match (boto3_client E region s).1 with
    | Ok c =>
        match handle_fetch (E := E) (ssm_get_document E c doc_name s).1 with
        | Ok v =>
            truthy v &&
            match has_outdated_python_runtime v old with
            | Ok true => true
            | _ => false
            end
        | Raise _ => false
        end
    | Raise _ => false
    end.
Proof.
  intros Hp Hn. unfold classified_outdated, fetched_document. rewrite Hp.
  pose proof (parse_arn_region _ _ _ Hp) as Hr.
  destruct (String.eqb_spec region "") as [? | _]; [done |].
  destruct (String.eqb_spec doc_name "") as [? | _]; [done |].
  cbn [orb]. destruct (boto3_client E region s).1 as [c|e]; [| done].
  by destruct (handle_fetch _).
Qed.

(** The client at hand for a region is the client of the service. *)
Lemma obtains_client_of_service (s : Service E) region
    (clients clients' : gmap string (Client E)) w (c : Client E) w1 :
  cache_of_service clients →
  obtains_client region clients w c clients' w1 →
  (boto3_client E region s).1 = Ok c ∧ cache_of_service clients'.
Proof.
  intros Hcache [c0 Hc | c0 w0 Hc Hmk]; [by split; [eapply Hcache |] |].
  assert ((boto3_client E region s).1 = Ok c0) as Hc0.
  { rewrite <- (stateless_client region w s). by rewrite Hmk. }
  split; [done |]. intros r c' s' [[<- <-] | [_ Hr]]%lookup_insert_Some.
  - rewrite <- Hc0. apply Hs.
  - by eapply Hcache.
Qed.

(** The verdict on a line is the verdict on each of its occurrences. *)
Lemma classified_iff_fetched (s : Service E) arn st w :
  cache_of_service (ssm_clients st) →
  classified_outdated s old arn = true ↔ fetched_outdated old arn st w.
Proof.
  intros Hcache. split.
  - intros Hclass.
    destruct (parse_arn_cases arn) as [[Hp | [region Hp]] | (region & doc_name & Hp & Hn)].
    { unfold classified_outdated, fetched_document in Hclass. by rewrite Hp in Hclass. }
    { unfold classified_outdated, fetched_document in Hclass. rewrite Hp in Hclass.
      by rewrite String.eqb_refl, orb_true_r in Hclass. }
    rewrite (classified_outdated_parsed s arn region doc_name Hp Hn) in Hclass.
    destruct (boto3_client E region s).1 as [c|e] eqn:Hc; [| discriminate].
    destruct (handle_fetch (ssm_get_document E c doc_name s).1) as [v|e] eqn:Hh;
      [| discriminate].
    apply andb_true_iff in Hclass as [Htrue Hout].
    assert (∃ clients w1, obtains_client region (ssm_clients st) w c clients w1)
      as (clients & w1 & Hclient).
    { destruct (ssm_clients st !! region) as [c'|] eqn:Hc'.
      - exists (ssm_clients st), w. rewrite (Hcache region c' s Hc') in Hc.
        injection Hc as <-. by apply client_from_cache.
      - eexists _, (call_boto3_client region w).2. apply client_made; [done |].
        rewrite <- (stateless_client region w s) in Hc.
        by destruct (call_boto3_client region w) as [r w1]; cbn in *; subst. }
    rewrite <- (stateless_document c doc_name w1 s) in Hh.
    destruct (handle_fetch_truthy _ _ Hh Htrue) as (resp & Hr & Hd).
    apply (fetched_is_outdated E old arn st w region doc_name c clients w1 resp
             (call_get_document c doc_name w1).2 v); try done.
    + rewrite <- Hr. by destruct (call_get_document c doc_name w1).
    + by destruct (has_outdated_python_runtime v old) as [[|]|].
  - intros [region doc_name c clients w1 resp w2 v Hp Hn Hclient Hget Hv Htrue Hout].
    rewrite (classified_outdated_parsed s arn region doc_name Hp Hn).
    destruct (obtains_client_of_service s _ _ _ _ _ _ Hcache Hclient) as [-> _].
    rewrite <- (stateless_document c doc_name w1 s), Hget. cbn [fst].
    by rewrite (handle_fetch_decoded _ _ Hv), Htrue, Hout.
Qed.

Lemma process_arn_cache_of_service arn st w fl st' w' :
  cache_of_service (ssm_clients st) →
  process_arn arn old st w = (fl, st', w') →
  cache_of_service (ssm_clients st').
Proof.
  intros Hcache.
  destruct (parse_arn_cases arn) as [Hskip | (region & doc_name & Hp & Hn)].
  { rewrite process_arn_skip by done. by intros [= <- <- <-]. }
  rewrite (process_arn_parsed old arn region doc_name st w Hp Hn).
  destruct (ssm_clients st !! region) as [c|] eqn:Hc.
  { by intros [_ ->]%classify_document_calls. }
  destruct (call_boto3_client region w) as [[c|e] w1] eqn:Hmk; cbn [fst snd].
  - intros [_ ->]%classify_document_calls. cbn.
    eapply (obtains_client_of_service (service w)); [done |]. by apply client_made.
  - by intros [= <- <- <-].
Qed.

(** The loop keeps the lines whose fetched document is outdated. *)
Lemma for_arns_classified (s : Service E) (arns : list string) st w st' w' :
  cache_of_service (ssm_clients st) →
  for_arns arns old st w = (Next, st', w') →
  filtered_arns st'
  = filtered_arns st ++ filter (fun a => classified_outdated s old a) arns.
Proof.
  revert st w. induction arns as [|arn rest IH]; intros st w Hcache.
  { intros [= <- <-]. by rewrite app_nil_r. }
  rewrite for_arns_cons.
  destruct (process_arn arn old st w) as [[[] st1] w1] eqn:H1; [| discriminate ..].
  intros Hrest.
  rewrite (IH st1 w1 (process_arn_cache_of_service _ _ _ _ _ _ Hcache H1) Hrest).
  destruct (process_arn_Next old arn st w st1 w1 H1) as [[Hf ->] | [Hf ->]].
  - apply (classified_iff_fetched s arn st w Hcache) in Hf.
    rewrite filter_cons_True by (by rewrite Hf). by rewrite <- app_assoc.
  - rewrite filter_cons_False; [done |]. intros Hc%Is_true_true.
    by apply Hf, (classified_iff_fetched s arn st w Hcache).
Qed.

(** Two runs of an iteration from the same locals, in two worlds. *)
Lemma classify_document_two_worlds arn (doc_name : string) (c : Client E) st wa wb
    fl st' wa' :
  classify_document arn doc_name c old st wa = (fl, st', wa') →
  ∃ wb', classify_document arn doc_name c old st wb = (fl, st', wb')
    ∧ calls wa' = calls wa ++ [GetDocument c doc_name]
    ∧ calls wb' = calls wb ++ [GetDocument c doc_name]
    ∧ fs wb' = fs wb.
Proof.
  intros Ha. exists (call_get_document c doc_name wb).2.
  destruct (call_get_document_world c doc_name wb) as (Hfs & Hcalls & _).
  split; [| split; [by apply classify_document_calls in Ha as [-> _] | done]].
  rewrite classify_document_eq in Ha |- *.
  rewrite (stateless_document c doc_name wb (service wa)).
  rewrite (stateless_document c doc_name wa (service wa)) in Ha.
  destruct (handle_fetch _) as [v|e].
  - injection Ha as Hk _. by rewrite Hk.
  - by injection Ha as <- <- _.
Qed.

Lemma process_arn_two_worlds arn st wa wb fl st' wa' :
  process_arn arn old st wa = (fl, st', wa') →
  ∃ evs wb', process_arn arn old st wb = (fl, st', wb')
    ∧ calls wa' = calls wa ++ evs
    ∧ calls wb' = calls wb ++ evs
    ∧ fs wb' = fs wb.
Proof.
  destruct (parse_arn_cases arn) as [Hskip | (region & doc_name & Hp & Hn)].
  { rewrite !process_arn_skip by done. intros [= <- <- <-]. exists [], wb.
    by rewrite !app_nil_r. }
  rewrite !(process_arn_parsed old arn region doc_name _ _ Hp Hn).
  destruct (ssm_clients st !! region) as [c|] eqn:Hc.
  { intros (wb' & ? & ? & ? & ?)%(classify_document_two_worlds _ _ _ _ _ wb). eauto 10. }
  destruct (call_boto3_client_world region wa) as (_ & Hca & _).
  destruct (call_boto3_client_world region wb) as (Hfb & Hcb & _).
  rewrite (stateless_client region wa (service wa)) in Hca |- *.
  rewrite (stateless_client region wb (service wa)) in Hcb |- *.
  destruct (boto3_client E region (service wa)).1 as [c|e].
  - intros (wb' & Hb & Ha1 & Hb1 & Hfs)%(classify_document_two_worlds _ _ _ _ _
                                            (call_boto3_client region wb).2).
    exists [NewClient region (Ok c); GetDocument c doc_name], wb'.
    split; [done |]. rewrite Ha1, Hb1, Hca, Hcb, Hfs, <- !app_assoc. done.
  - intros [= <- <- <-]. exists [NewClient region (Raise e)], (call_boto3_client region wb).2.
    done.
Qed.

Lemma for_arns_two_worlds (arns : list string) st wa wb fl st' wa' :
  for_arns arns old st wa = (fl, st', wa') →
  ∃ evs wb', for_arns arns old st wb = (fl, st', wb')
    ∧ calls wa' = calls wa ++ evs
    ∧ calls wb' = calls wb ++ evs
    ∧ fs wb' = fs wb.
Proof.
  revert st wa wb. induction arns as [|arn rest IH]; intros st wa wb.
  { intros [= <- <- <-]. exists [], wb. by rewrite !app_nil_r. }
  rewrite !for_arns_cons.
  destruct (process_arn arn old st wa) as [[fl1 st1] wa1] eqn:Ha.
  destruct (process_arn_two_worlds arn st wa wb fl1 st1 wa1 Ha)
    as (evs1 & wb1 & -> & Hca & Hcb & Hfs).
  destruct fl1; [| intros [= <- <- <-]; eauto 10 ..].
  intros (evs2 & wb' & -> & Hca2 & Hcb2 & Hfs2)%(IH _ _ wb1).
  exists (evs1 ++ evs2), wb'. split; [done |].
  by rewrite Hca2, Hcb2, Hca, Hcb, Hfs2, Hfs, !app_assoc.
Qed.

End Stateless.

(** ** The claims on what the run writes *)

(** A run that returns [True] has gone through its loop and written the
    results of the loop. *)
Lemma filter_ssm_documents_true (E : Env) (old : list string)
    (input_file output_file : string) (w : world E) (lines : list string) (w' : world E) :
  read_lines input_file (fs w) = Ok lines →
  filter_ssm_documents input_file output_file old w = (Ok true, w') →
  ∃ st' w1,
    for_arns (arns_of_lines lines) old initial_locals w = (Next, st', w1)
    ∧ fs_data (fs w') !! output_file = Some (output_text (filtered_arns st')).
Proof.
  intros Hread. unfold filter_ssm_documents. rewrite Hread.
  destruct (BOTO3_AVAILABLE E); [| discriminate]. cbn [negb].
  destruct (arns_of_lines lines) as [|arn arns] eqn:Harns.
  { intros H%write_output_true. by exists initial_locals, w. }
  destruct (for_arns (arn :: arns) old initial_locals w) as [[[|b|e] st'] w1] eqn:Hloop.
  - intros H%write_output_true. by exists st', w1.
  - apply for_arns_Return in Hloop as ->. discriminate.
  - discriminate.
Qed.

(** C3, as stated, fails on an input with a repeated line: the loop
    appends every occurrence, and the output lists the ARN twice. *)
Lemma repeated_arn_is_listed_twice :
  ¬ lists_each_outdated_arn_once (E := Fixture.healthy) 0
      Fixture.input_file Fixture.output_file DEFAULT_OLD_RUNTIMES
      (Fixture.world_with Fixture.healthy 0
         (Fixture.text_of [Fixture.arn_MyDoc; Fixture.arn_MyDoc]) ∅).
Proof.
  intros H.
  specialize (H (text_lines (universal_newlines
                   (Fixture.text_of [Fixture.arn_MyDoc; Fixture.arn_MyDoc])))).
  assert (Fixture.output_of
            (filter_ssm_documents Fixture.input_file Fixture.output_file DEFAULT_OLD_RUNTIMES
               (Fixture.world_with Fixture.healthy 0
                  (Fixture.text_of [Fixture.arn_MyDoc; Fixture.arn_MyDoc]) ∅))
          = Some (output_text [Fixture.arn_MyDoc; Fixture.arn_MyDoc])) as Hout
    by (vm_compute; reflexivity).
  unfold Fixture.output_of in Hout. rewrite H in Hout.
  - vm_compute in Hout. discriminate Hout.
  - vm_compute. reflexivity.
  - vm_compute. reflexivity.
Qed.

(** C3, amended: an iteration of the loop appends the line at hand to
    the results exactly when the document fetched for this occurrence is
    classified outdated; a run that returns [True] writes, one per line,
    a part of its input lines in the order of the input; and when the
    answers of the service do not depend on its state, what is written is
    the input lines whose fetched document is classified outdated, each
    as often as it occurs in the input. *)
Theorem output_lists_outdated_arns (E : Env) (old : list string) :
  (∀ arn (st : locals (Client E)) (w : world E) st' w',
     process_arn arn old st w = (Next, st', w') →
     fetched_outdated old arn st w ∧ filtered_arns st' = filtered_arns st ++ [arn]
     ∨ ¬ fetched_outdated old arn st w ∧ filtered_arns st' = filtered_arns st)
  ∧ (∀ input_file output_file (w : world E) lines w',
       read_lines input_file (fs w) = Ok lines →
       filter_ssm_documents input_file output_file old w = (Ok true, w') →
       ∃ kept, fs_data (fs w') !! output_file = Some (output_text kept)
         ∧ kept `sublist_of` arns_of_lines lines)
  ∧ (∀ (s : Service E) input_file output_file (w : world E) lines w',
       stateless E →
       read_lines input_file (fs w) = Ok lines →
       filter_ssm_documents input_file output_file old w = (Ok true, w') →
       fs_data (fs w') !! output_file
       = Some (output_text (filter (fun a => classified_outdated s old a)
                              (arns_of_lines lines)))).
Proof.
  split; [apply process_arn_Next |]. split.
  - intros input_file output_file w lines w' Hread Hrun.
    destruct (filter_ssm_documents_true E old _ _ _ _ _ Hread Hrun)
      as (st' & w1 & Hloop & Hout).
    destruct (for_arns_sublist old _ _ _ _ _ _ Hloop) as (kept & Hkept & Hsub).
    exists kept. by rewrite Hout, Hkept.
  - intros s input_file output_file w lines w' Hs Hread Hrun.
    destruct (filter_ssm_documents_true E old _ _ _ _ _ Hread Hrun)
      as (st' & w1 & Hloop & Hout).
    assert (cache_of_service (ssm_clients (initial_locals (E := E)))) as Hcache
      by (intros region c s' Hc; cbn in Hc; by rewrite lookup_empty in Hc).
    by rewrite Hout, (for_arns_classified old Hs s _ _ _ _ _ Hcache Hloop).
Qed.

Lemma output_lists_outdated_arns_witness :
  fs_data (fs (filter_ssm_documents Fixture.input_file Fixture.output_file
                 DEFAULT_OLD_RUNTIMES
                 (Fixture.world_with Fixture.healthy 0
                    (Fixture.text_of [Fixture.arn_NewDoc; Fixture.arn_MyDoc; "not-an-arn";
                                      Fixture.arn_MyDoc]) ∅)).2)
    !! Fixture.output_file
  = Some (output_text
            (filter (fun a => classified_outdated (E := Fixture.healthy) 7
                                DEFAULT_OLD_RUNTIMES a)
               [Fixture.arn_NewDoc; Fixture.arn_MyDoc; "not-an-arn"; Fixture.arn_MyDoc])).
Proof.
  replace [Fixture.arn_NewDoc; Fixture.arn_MyDoc; "not-an-arn"; Fixture.arn_MyDoc]
    with (arns_of_lines
            (text_lines (universal_newlines
               (Fixture.text_of [Fixture.arn_NewDoc; Fixture.arn_MyDoc; "not-an-arn";
                                 Fixture.arn_MyDoc]))))
    at 2 by (vm_compute; reflexivity).
  apply (proj2 (proj2 (output_lists_outdated_arns Fixture.healthy DEFAULT_OLD_RUNTIMES))
           7 Fixture.input_file Fixture.output_file
           (Fixture.world_with Fixture.healthy 0
              (Fixture.text_of [Fixture.arn_NewDoc; Fixture.arn_MyDoc; "not-an-arn";
                                Fixture.arn_MyDoc]) ∅)).
  - split; intros; reflexivity.
  - vm_compute. reflexivity.
  - vm_compute. reflexivity.
Defined.

(** C8: the run is a function of the lines of its input file, the
    denylist, the answers of the service and whether the output file can
    be opened. Two runs for which these are the same, whatever the states
    of the service and the other files, return the same result, make the
    same calls, and either both write the same text to the output file or
    both leave the files as they are. *)
Theorem runs_are_deterministic (E : Env) (input_file output_file : string)
    (old : list string) (w1 w2 : world E) :
  stateless E →
  read_lines input_file (fs w1) = read_lines input_file (fs w2) →
  (output_file ∈ fs_denied (fs w1) ↔ output_file ∈ fs_denied (fs w2)) →
  (filter_ssm_documents input_file output_file old w1).1
  = (filter_ssm_documents input_file output_file old w2).1
  ∧ (∃ evs,
       calls (filter_ssm_documents input_file output_file old w1).2 = calls w1 ++ evs
       ∧ calls (filter_ssm_documents input_file output_file old w2).2 = calls w2 ++ evs)
  ∧ ((∃ text,
        fs_data (fs (filter_ssm_documents input_file output_file old w1).2) !! output_file
        = Some text
        ∧ fs_data (fs (filter_ssm_documents input_file output_file old w2).2) !! output_file
          = Some text)
     ∨ fs (filter_ssm_documents input_file output_file old w1).2 = fs w1
       ∧ fs (filter_ssm_documents input_file output_file old w2).2 = fs w2).
Proof.
  intros Hs Hread Hdenied.
  assert (∀ (wa wb : world E) text evs,
            fs wa = fs w1 → fs wb = fs w2 →
            calls wa = calls w1 ++ evs → calls wb = calls w2 ++ evs →
            (write_output output_file text wa).1 = (write_output output_file text wb).1
            ∧ (∃ evs, calls (write_output output_file text wa).2 = calls w1 ++ evs
                      ∧ calls (write_output output_file text wb).2 = calls w2 ++ evs)
            ∧ ((∃ written,
                  fs_data (fs (write_output output_file text wa).2) !! output_file
                  = Some written
                  ∧ fs_data (fs (write_output output_file text wb).2) !! output_file
                    = Some written)
               ∨ fs (write_output output_file text wa).2 = fs w1
                 ∧ fs (write_output output_file text wb).2 = fs w2)) as Hwrite.
  { intros wa wb text evs Hfa Hfb Hca Hcb.
    destruct (decide (output_file ∈ fs_denied (fs w1))) as [Hd | Hd].
    - rewrite !write_output_denied by (rewrite ?Hfa, ?Hfb; tauto).
      split; [done |]. split; [by exists evs | by right].
    - destruct (write_output_ok output_file text wa) as (wa' & Hwa & Hta & Hca' & _);
        [by rewrite Hfa |].
      destruct (write_output_ok output_file text wb) as (wb' & Hwb & Htb & Hcb' & _);
        [rewrite Hfb; tauto |].
      rewrite Hwa, Hwb. cbn [fst snd]. rewrite Hca', Hcb'.
      split; [done |]. split; [by exists evs | left; by exists text]. }
  unfold filter_ssm_documents. rewrite <- Hread.
  destruct (BOTO3_AVAILABLE E); cbn [negb];
    [| split; [done |]; split; [exists []; by rewrite !app_nil_r | by right]].
  destruct (read_lines input_file (fs w1)) as [lines|e].
  2: { destruct e; (split; [done |]; split; [exists []; by rewrite !app_nil_r | by right]). }
  destruct (arns_of_lines lines) as [|arn arns] eqn:Harns.
  { apply (Hwrite w1 w2 "" []); by rewrite ?app_nil_r. }
  destruct (for_arns (arn :: arns) old initial_locals w1) as [[fl st'] w1'] eqn:Hloop.
  pose proof (for_arns_fs old _ _ _ _ _ _ Hloop) as Hfs1.
  destruct (for_arns_two_worlds old Hs _ _ _ w2 _ _ _ Hloop)
    as (evs & w2' & -> & Hc1 & Hc2 & Hfs2).
  destruct fl as [|b|e].
  - by apply (Hwrite w1' w2' _ evs).
  - cbn. split; [done |]. split; [eauto | right; by rewrite Hfs1, Hfs2].
  - cbn. split; [done |]. split; [eauto | right; by rewrite Hfs1, Hfs2].
Qed.

Lemma runs_are_deterministic_witness :
  (filter_ssm_documents Fixture.input_file Fixture.output_file DEFAULT_OLD_RUNTIMES
     (Fixture.world_with Fixture.healthy 0
        (Fixture.text_of [Fixture.arn_MyDoc; Fixture.arn_Broken]) ∅)).1
  = (filter_ssm_documents Fixture.input_file Fixture.output_file DEFAULT_OLD_RUNTIMES
       (Fixture.world_with Fixture.healthy 5
          (Fixture.text_of [Fixture.arn_MyDoc; Fixture.arn_Broken]) ∅)).1.
Proof.
  apply (runs_are_deterministic Fixture.healthy Fixture.input_file Fixture.output_file
           DEFAULT_OLD_RUNTIMES
           (Fixture.world_with Fixture.healthy 0
              (Fixture.text_of [Fixture.arn_MyDoc; Fixture.arn_Broken]) ∅)
           (Fixture.world_with Fixture.healthy 5
              (Fixture.text_of [Fixture.arn_MyDoc; Fixture.arn_Broken]) ∅)).
  - split; intros; reflexivity.
  - vm_compute. reflexivity.
  - reflexivity.
Defined.

(** ** The scenarios of the specification *)

Example parse_arn_document :
  parse_arn "arn:aws:ssm:us-east-1:123456789012:document/MyDoc"
  = (Some "us-east-1", Some "MyDoc").
Proof. vm_compute. reflexivity. Qed.

Example parse_arn_not_an_arn : parse_arn "not-an-arn" = (None, None).
Proof. vm_compute. reflexivity. Qed.

Example parse_arn_no_region : parse_arn "arn:aws:ssm::123456789012:document/MyDoc" = (None, None).
Proof. vm_compute. reflexivity. Qed.

Example classify_python37 :
  has_outdated_python_runtime (script_document "python3.7") DEFAULT_OLD_RUNTIMES = Ok true.
Proof. vm_compute. reflexivity. Qed.

Example classify_python311 :
  has_outdated_python_runtime (script_document "python3.11") DEFAULT_OLD_RUNTIMES = Ok false.
Proof. vm_compute. reflexivity. Qed.

(** A document with an outdated runtime is listed; a line that is not an
    ARN and a document with a current runtime are not. *)
Example run_lists_outdated_document :
  let r :=
    filter_ssm_documents Fixture.input_file Fixture.output_file DEFAULT_OLD_RUNTIMES
      (Fixture.world_with Fixture.healthy 0
         (Fixture.text_of ["not-an-arn"; Fixture.arn_NewDoc; Fixture.arn_MyDoc]) ∅) in
  r.1 = Ok true ∧ Fixture.output_of r = Some (output_text [Fixture.arn_MyDoc]).
Proof. vm_compute. split; reflexivity. Qed.

(** Without credentials when the client is made, the run ends at the
    first line that needs a client, and writes nothing. *)
Example run_without_credentials :
  let r :=
    filter_ssm_documents Fixture.input_file Fixture.output_file DEFAULT_OLD_RUNTIMES
      (Fixture.world_with (Fixture.env true Fixture.no_credentials Fixture.documents) 0
         (Fixture.text_of ["not-an-arn"; Fixture.arn_MyDoc; Fixture.arn_NewDoc]) ∅) in
  r.1 = Ok false
  ∧ Fixture.output_of r = None
  ∧ calls r.2 = [NewClient "us-east-1" (Raise NoCredentialsError)].
Proof. vm_compute. repeat split. Qed.

(** A fetched document whose [mainSteps] is [null] ends the run with the
    [TypeError] of the classifier: nothing is written, also not the ARN
    that was found before. *)
Example run_on_null_mainSteps :
  let r :=
    filter_ssm_documents Fixture.input_file Fixture.output_file DEFAULT_OLD_RUNTIMES
      (Fixture.world_with Fixture.healthy 0
         (Fixture.text_of [Fixture.arn_MyDoc; Fixture.arn_NullSteps]) ∅) in
  r.1 = Raise TypeError ∧ Fixture.output_of r = None.
Proof. vm_compute. split; reflexivity. Qed.

(** A construction that fails once is tried again for the next line of
    the region, and the client that is made then serves the lines after it. *)
Example run_retries_construction :
  calls (filter_ssm_documents Fixture.input_file Fixture.output_file DEFAULT_OLD_RUNTIMES
           (Fixture.world_with Fixture.slow_start 0
              (Fixture.text_of [Fixture.arn_MyDoc; Fixture.arn_NewDoc; Fixture.arn_MyDoc])
              ∅)).2
  = [ NewClient "us-east-1" (Raise (ClientError None));
      NewClient "us-east-1" (Ok "us-east-1");
      GetDocument "us-east-1" "NewDoc";
      GetDocument "us-east-1" "MyDoc" ].
Proof. vm_compute. reflexivity. Qed.

(** * More of the code *)

(** ** Reading and writing lines *)

Lemma lstrip_first (s : string) : not_space (first_char (lstrip s)).
Proof.
  induction s as [|c s IH]; cbn; [done |].
  destruct (py_isspace c) eqn:Hc; [done | exact Hc].
Qed.

Lemma rstrip_last (s : string) : not_space (last_char (rstrip s)).
Proof.
  induction s as [|c s IH]; cbn; [done |].
  destruct (rstrip s) as [|d t]; cbn in *.
  - destruct (py_isspace c) eqn:Hc; [done | exact Hc].
  - by destruct (last_char t).
Qed.

Lemma rstrip_first (s : string) :
  not_space (first_char s) → not_space (first_char (rstrip s)).
Proof.
  destruct s as [|c s]; cbn; [done |]. intros Hc.
  destruct (rstrip s); [by rewrite Hc | done].
Qed.

Lemma occurs_lstrip (c : ascii) (s : string) :
  occurs c (lstrip s) = true → occurs c s = true.
Proof.
  induction s as [|d s IH]; cbn; [done |].
  destruct (py_isspace d); [| done]. intros H. by rewrite (IH H), orb_true_r.
Qed.

Lemma occurs_rstrip (c : ascii) (s : string) :
  occurs c (rstrip s) = true → occurs c s = true.
Proof.
  induction s as [|d s IH]; cbn; [done |].
  destruct (rstrip s) as [|e t].
  - destruct (py_isspace d); cbn; [done |]. rewrite orb_false_r. by intros ->.
  - cbn in *. intros [-> | H]%orb_true_iff; [done |]. by rewrite (IH H), orb_true_r.
Qed.

Lemma occurs_strip (c : ascii) (s : string) :
  occurs c (strip s) = true → occurs c s = true.
Proof. intros H%occurs_rstrip. by apply occurs_lstrip. Qed.

Lemma rstrip_append_space (s : string) (c : ascii) :
  py_isspace c = true → rstrip (s +:+ String c "") = rstrip s.
Proof.
  intros Hc. induction s as [|d s IH]; str_simpl; [by rewrite Hc |]. by rewrite IH.
Qed.

Lemma lstrip_append_space (s : string) (c : ascii) :
  py_isspace c = true →
  lstrip (s +:+ String c "") = match lstrip s with
                               | EmptyString => EmptyString
                               | t => t +:+ String c ""
                               end.
Proof.
  intros Hc. induction s as [|d s IH]; str_simpl; [by rewrite Hc |].
  by destruct (py_isspace d).
Qed.

(** Whitespace at the end of a line, such as its line feed, is nothing
    to [strip]. *)
Lemma strip_append_space (s : string) (c : ascii) :
  py_isspace c = true → strip (s +:+ String c "") = strip s.
Proof.
  intros Hc. unfold strip. rewrite lstrip_append_space by done.
  destruct (lstrip s) as [|d t]; [done |].
  by rewrite (rstrip_append_space (String d t) c Hc).
Qed.

Lemma rstrip_id (s : string) : not_space (last_char s) → rstrip s = s.
Proof.
  induction s as [|c s IH]; cbn; [done |].
  destruct s as [|d s].
  - cbn. by intros ->.
  - intros H. rewrite IH; [done |]. cbn in *. by destruct (last_char s).
Qed.

Lemma strip_id (s : string) :
  not_space (first_char s) → not_space (last_char s) → strip s = s.
Proof.
  intros Hf Hl. unfold strip.
  assert (lstrip s = s) as -> by (destruct s; cbn in *; [done | by rewrite Hf]).
  by apply rstrip_id.
Qed.

(** A line of a file is not empty, and has a line feed at its end or
    nowhere. *)
Lemma text_lines_shape (s : string) :
  Forall (fun l => l ≠ ""
                   ∧ ∃ body, occurs LF body = false
                             ∧ (l = body ∨ l = body +:+ String LF ""))
    (text_lines s).
Proof.
  induction s as [|c s IH]; cbn [text_lines]; [constructor |].
  destruct (Ascii.eqb_spec c LF) as [-> | Hc].
  - constructor; [| done]. split; [done |]. exists "". split; [done | by right].
  - assert (Ascii.eqb c LF = false) as Hc' by (by apply Ascii.eqb_neq).
    destruct (text_lines s) as [|l ls].
    + constructor; [| done]. split; [done |]. exists (String c "").
      split; [cbn [occurs]; by rewrite Hc' | by left].
    + apply Forall_cons in IH as [(_ & body & Hbody & Hl) Hls].
      constructor; [| done]. split; [done |]. exists (String c body).
      split; [cbn [occurs]; by rewrite Hc', Hbody |].
      destruct Hl as [-> | ->]; [by left | by right].
Qed.

Lemma text_lines_occurs (c : ascii) (s l : string) :
  l ∈ text_lines s → occurs c l = true → occurs c s = true.
Proof.
  revert l. induction s as [|d s IH]; intros l; cbn [text_lines occurs];
    [by intros ?%elem_of_nil |].
  destruct (Ascii.eqb_spec d LF) as [-> | Hd].
  - intros [-> | Hin]%elem_of_cons.
    + cbn [occurs]. rewrite orb_false_r. by intros ->.
    + intros H. by rewrite (IH l Hin H), orb_true_r.
  - destruct (text_lines s) as [|l0 ls].
    + intros ->%list_elem_of_singleton. cbn [occurs]. rewrite orb_false_r. by intros ->.
    + intros [-> | Hin]%elem_of_cons.
      * cbn [occurs]. intros [-> | H]%orb_true_iff; [done |].
        rewrite (IH l0); [by rewrite orb_true_r | by left | done].
      * intros H. rewrite (IH l); [by rewrite orb_true_r | by right | done].
Qed.

Lemma universal_newlines_no_CR (s : string) : occurs CR (universal_newlines s) = false.
Proof.
  assert (∀ n s, String.length s ≤ n → occurs CR (universal_newlines s) = false) as H.
  { clear s. induction n as [|n IH]; intros [|c s] Hlen; cbn in *; try done; [lia |].
    destruct (Ascii.eqb_spec c CR) as [-> | Hc].
    - cbn. destruct s as [|d s]; [done |]. cbn in Hlen.
      destruct (Ascii.eqb d LF); apply IH; cbn; lia.
    - cbn. rewrite IH by lia. by apply Ascii.eqb_neq in Hc as ->. }
  by apply (H (String.length s)).
Qed.

Lemma universal_newlines_id (s : string) :
  occurs CR s = false → universal_newlines s = s.
Proof.
  induction s as [|c s IH]; cbn; [done |].
  intros [Hc Hs]%orb_false_elim. rewrite Hc. by rewrite IH.
Qed.

Lemma text_lines_line (a t : string) :
  occurs LF a = false →
  text_lines (a +:+ String LF t) = (a +:+ String LF "") :: text_lines t.
Proof.
  induction a as [|c a IH]; str_simpl.
  - intros _. by rewrite Ascii.eqb_refl.
  - intros [Hc Ha]%orb_false_elim. by rewrite Hc, IH.
Qed.

Lemma output_text_cons (a : string) (rest : list string) :
  output_text (a :: rest) = a +:+ String LF (output_text rest).
Proof. reflexivity. Qed.

Lemma text_lines_output_text (l : list string) :
  Forall (fun a => occurs LF a = false) l →
  text_lines (output_text l) = (fun a => a +:+ String LF "") <$> l.
Proof.
  induction 1 as [|a l Ha _ IH]; [done |].
  by rewrite output_text_cons, text_lines_line, IH.
Qed.

Lemma occurs_output_text (c : ascii) (l : list string) :
  Ascii.eqb LF c = false →
  Forall (fun a => occurs c a = false) l →
  occurs c (output_text l) = false.
Proof.
  intros Hc. induction 1 as [|a l Ha _ IH]; [done |].
  rewrite output_text_cons, occurs_append, Ha. cbn. by rewrite Hc, IH.
Qed.

(** The lines the loop works on are clean. *)
Lemma arns_of_lines_clean (text arn : string) :
  arn ∈ arns_of_lines (text_lines (universal_newlines text)) → clean_line arn.
Proof.
  unfold arns_of_lines. intros [Hne (l & -> & Hl)%list_elem_of_fmap]%list_elem_of_filter.
  pose proof (text_lines_shape (universal_newlines text)) as Hshape.
  rewrite Forall_forall in Hshape. destruct (Hshape l Hl) as (_ & body & Hbody & Hlb).
  assert (strip l = strip body) as Hstrip.
  { destruct Hlb as [-> | ->]; [done |]. by apply strip_append_space. }
  split; [done |]. split; [| split; [| split]].
  - unfold strip. apply rstrip_first, lstrip_first.
  - apply rstrip_last.
  - rewrite Hstrip. apply not_true_is_false. intros H%occurs_strip. congruence.
  - apply not_true_is_false. intros H%occurs_strip.
    apply (text_lines_occurs CR _ _ Hl) in H.
    by rewrite universal_newlines_no_CR in H.
Qed.

(** What is written can be read back. *)
Lemma arns_of_output_text (l : list string) :
  Forall clean_line l →
  arns_of_lines (text_lines (universal_newlines (output_text l))) = l.
Proof.
  intros Hl.
  rewrite universal_newlines_id, text_lines_output_text.
  - unfold arns_of_lines. rewrite <- list_fmap_compose.
    induction Hl as [|a l (Hne & Hf & Hla & _) _ IH]; [done |].
    rewrite fmap_cons. cbn [compose].
    rewrite strip_append_space, (strip_id a Hf Hla) by done.
    rewrite filter_cons_True by done. by rewrite IH.
  - eapply Forall_impl; [done |]. by intros a (_ & _ & _ & H & _).
  - apply occurs_output_text; [done |].
    eapply Forall_impl; [done |]. by intros a (_ & _ & _ & _ & H).
Qed.

(** ** The lines of the input, the parser and the classifier *)

Lemma parse_arn_no_line_feed (s : string) :
  occurs LF s = false →
  parse_arn s = (None, None)
  ∨ ∃ region account name,
      parse_arn s = (Some region, Some name)
      ∧ s = arn_shape region account name
      ∧ segment region ∧ segment account.
Proof.
  intros Hs.
  destruct (parse_arn_sound s)
    as [H | (region & account & name & rest & Hp & -> & Hr & Ha & _ & Hrest)]; [by left |].
  right. exists region, account, name. split; [done |].
  destruct Hrest as [-> | [t ->]]; [by rewrite append_nil_r |].
  rewrite occurs_append in Hs. apply orb_false_elim in Hs as [_ Hs].
  cbn [occurs] in Hs. by rewrite Ascii.eqb_refl in Hs.
Qed.

(** X1: the lines the loop works on, read from the input file in text
    mode and stripped, are not empty, have no whitespace at either end and
    hold no line feed and no carriage return. *)
Theorem loop_lines_are_clean (input_file : string) (fs : FS) (lines : list string)
    (arn : string) :
  read_lines input_file fs = Ok lines →
  arn ∈ arns_of_lines lines →
  clean_line arn.
Proof.
  unfold read_lines. destruct (bool_decide _); [discriminate |].
  destruct (fs_data fs !! input_file) as [text|]; [| discriminate].
  intros [= <-]. apply arns_of_lines_clean.
Qed.

Lemma loop_lines_are_clean_witness :
  clean_line "arn:aws:ssm:us-east-1:123456789012:document/My Doc".
Proof.
  apply (loop_lines_are_clean "in.txt"
           {| fs_data := {[ "in.txt" :=
                "  arn:aws:ssm:us-east-1:123456789012:document/My Doc "
                +:+ String CR (String LF "") ]};
              fs_denied := ∅ |}
           ["  arn:aws:ssm:us-east-1:123456789012:document/My Doc " +:+ String LF ""]).
  - vm_compute. reflexivity.
  - apply (bool_decide_unpack _). vm_compute. exact I.
Defined.

(** X2: a line the loop works on is parsed as a whole or not at all:
    when [parse_arn] gives a region and a name, the line is exactly
    [arn:aws:ssm:<region>:<account-id>:document/<name>] with a region and
    an account that are not empty and have no colon. *)
Theorem loop_lines_parse_as_a_whole (input_file : string) (fs : FS)
    (lines : list string) (arn : string) :
  read_lines input_file fs = Ok lines →
  arn ∈ arns_of_lines lines →
  parse_arn arn = (None, None)
  ∨ ∃ region account name,
      parse_arn arn = (Some region, Some name)
      ∧ arn = arn_shape region account name
      ∧ segment region ∧ segment account.
Proof.
  unfold read_lines. destruct (bool_decide _); [discriminate |].
  destruct (fs_data fs !! input_file) as [text|]; [| discriminate].
  intros [= <-] (_ & _ & _ & Hlf & _)%arns_of_lines_clean.
  by apply parse_arn_no_line_feed.
Qed.

Lemma loop_lines_parse_as_a_whole_witness :
  parse_arn "arn:aws:ssm:us-east-1:123456789012:document/MyDoc" = (None, None)
  ∨ ∃ region account name,
      parse_arn "arn:aws:ssm:us-east-1:123456789012:document/MyDoc"
      = (Some region, Some name)
      ∧ "arn:aws:ssm:us-east-1:123456789012:document/MyDoc"
        = arn_shape region account name
      ∧ segment region ∧ segment account.
Proof.
  apply (loop_lines_parse_as_a_whole "in.txt"
           {| fs_data := {[ "in.txt" :=
                "arn:aws:ssm:us-east-1:123456789012:document/MyDoc" +:+ String LF "" ]};
              fs_denied := ∅ |}
           ["arn:aws:ssm:us-east-1:123456789012:document/MyDoc" +:+ String LF ""]).
  - vm_compute. reflexivity.
  - apply (bool_decide_unpack _). vm_compute. exact I.
Defined.

Lemma step_outdated_ext (old old' : list string) (step : pyval) :
  (∀ r, r ∈ old → r ∈ old') →
  step_outdated step old = true → step_outdated step old' = true.
Proof.
  intros Hsub (sd & inputs & r & -> & Ha & Hi & Hr & Hin)%step_outdated_spec.
  apply step_outdated_spec. exists sd, inputs, r. eauto 10.
Qed.

Lemma for_steps_ext (old old' : list string) (steps : list pyval) :
  (∀ r, r ∈ old ↔ r ∈ old') → for_steps steps old = for_steps steps old'.
Proof.
  intros Hext. induction steps as [|step steps IH]; cbn; [done |].
  assert (step_outdated step old = step_outdated step old') as ->.
  { apply eq_true_iff_eq. split; apply step_outdated_ext; intros r; apply Hext. }
  by rewrite IH.
Qed.

(** X3: the denylist counts as a set: two lists with the same entries
    give the same verdict on every document, whatever their order and
    repetitions; a longer list keeps every [True]; and the empty list
    never gives [True]. *)
Theorem denylist_is_a_set (content : pyval) (old old' : list string) :
  ((∀ r, r ∈ old ↔ r ∈ old') →
     has_outdated_python_runtime content old = has_outdated_python_runtime content old')
  ∧ ((∀ r, r ∈ old → r ∈ old') →
       has_outdated_python_runtime content old = Ok true →
       has_outdated_python_runtime content old' = Ok true)
  ∧ has_outdated_python_runtime content [] ≠ Ok true.
Proof.
  split; [| split].
  - intros Hext. unfold has_outdated_python_runtime.
    destruct (negb (truthy content)); [done |].
    destruct content as [| | | | | |d]; try done.
    destruct (py_iter _) as [steps|e]; [| done]. by rewrite (for_steps_ext old old').
  - intros Hsub (step & Hin & sd & inputs & r & Hstep & Ha & Hi & Hr & Hr')%has_outdated_true.
    apply has_outdated_true. exists step. split; [done |].
    exists sd, inputs, r. auto 10.
  - intros (step & _ & sd & inputs & r & _ & _ & _ & _ & Hin)%has_outdated_true.
    by apply elem_of_nil in Hin.
Qed.

Lemma denylist_is_a_set_witness :
  has_outdated_python_runtime (script_document "python3.7") ["python3.7"; "python2.7"]
  = has_outdated_python_runtime (script_document "python3.7")
      ["python2.7"; "python3.7"; "python2.7"].
Proof.
  apply (proj1 (denylist_is_a_set (script_document "python3.7")
                  ["python3.7"; "python2.7"] ["python2.7"; "python3.7"; "python2.7"])).
  intros r. rewrite !elem_of_cons, !elem_of_nil. tauto.
Defined.

Lemma has_outdated_Raise_inv (content : pyval) (old : list string) (e : exn) :
  has_outdated_python_runtime content old = Raise e →
  e = TypeError
  ∧ ∃ d v, content = PyDict d ∧ d !! "mainSteps" = Some v ∧ scalar v.
Proof.
  destruct content as [| | | | | |d];
    try (rewrite has_outdated_not_dict by done; discriminate).
  rewrite has_outdated_dict. case_bool_decide; [discriminate |].
  unfold dict_get. destruct (d !! "mainSteps") as [v|] eqn:Hv; [| discriminate].
  destruct v; try discriminate; intros [= <-]; (split; [done |]);
    eexists d, _; (split; [done |]); (split; [exact Hv | exact I]).
Qed.

(** X4: the classifier raises nothing but [TypeError], and raises it
    exactly on an object whose [mainSteps] is there and is [null], a
    boolean or a number; on everything else it returns a boolean. *)
Theorem classifier_raises_on_scalar_mainSteps (content : pyval) (old : list string)
    (e : exn) :
  has_outdated_python_runtime content old = Raise e
  ↔ e = TypeError
    ∧ ∃ d v, content = PyDict d ∧ d !! "mainSteps" = Some v ∧ scalar v.
Proof.
  split; [apply has_outdated_Raise_inv |].
  intros (-> & d & v & -> & Hd & Hv). apply (has_outdated_raises d v); [done |].
  by destruct v.
Qed.

(** X5: the verdict on an object depends on its [mainSteps] only, and
    not on the order of the steps. *)
Theorem classifier_reads_mainSteps_only (d d' : gmap string pyval) (old : list string) :
  (d !! "mainSteps" = d' !! "mainSteps" →
     has_outdated_python_runtime (PyDict d) old = has_outdated_python_runtime (PyDict d') old)
  ∧ (∀ steps steps',
       d !! "mainSteps" = Some (PyList steps) →
       d' !! "mainSteps" = Some (PyList steps') →
       steps ≡ₚ steps' →
       has_outdated_python_runtime (PyDict d) old
       = has_outdated_python_runtime (PyDict d') old).
Proof.
  split.
  - intros Heq. rewrite !has_outdated_dict. unfold dict_get. rewrite <- Heq.
    destruct (d !! "mainSteps") as [v|] eqn:Hv.
    + rewrite !bool_decide_eq_false_2; [done | |]; intros ->;
        by rewrite lookup_empty in *.
    + cbn. by do 2 case_bool_decide.
  - intros steps steps' Hd Hd' Hperm.
    rewrite (has_outdated_steps d steps old Hd), (has_outdated_steps d' steps' old Hd').
    f_equal. apply eq_true_iff_eq. rewrite !for_steps_spec.
    split; intros (step & Hin & Hq); exists step; split; try done.
    + by rewrite <- Hperm.
    + by rewrite Hperm.
Qed.

Lemma classifier_reads_mainSteps_only_witness :
  has_outdated_python_runtime
    (PyDict {[ "mainSteps" := PyList [PyNone; PyStr "x"] ]}) DEFAULT_OLD_RUNTIMES
  = has_outdated_python_runtime
      (PyDict (<[ "description" := PyStr "a runbook" ]>
                 {[ "mainSteps" := PyList [PyStr "x"; PyNone] ]})) DEFAULT_OLD_RUNTIMES.
Proof.
  apply (proj2 (classifier_reads_mainSteps_only _ _ DEFAULT_OLD_RUNTIMES)
           [PyNone; PyStr "x"] [PyStr "x"; PyNone]).
  - vm_compute. reflexivity.
  - vm_compute. reflexivity.
  - apply Permutation_swap.
Defined.

(** ** The loop, one iteration at a time *)

Lemma read_lines_inv (path : string) (fs : FS) :
  (path ∈ fs_denied fs ∧ read_lines path fs = Raise PermissionError)
  ∨ ((path ∉ fs_denied fs) ∧ fs_data fs !! path = None
     ∧ read_lines path fs = Raise FileNotFoundError)
  ∨ ((path ∉ fs_denied fs)
     ∧ ∃ text, fs_data fs !! path = Some text
               ∧ read_lines path fs = Ok (text_lines (universal_newlines text))).
Proof.
  unfold read_lines. case_bool_decide as Hd; [by left | right].
  destruct (fs_data fs !! path) as [text|]; [right | left]; eauto.
Qed.

Section Iterations.
Context {E : Env} (old : list string).
Implicit Types (st : locals (Client E)) (w : world E) (arn region : string).
Implicit Types (evs : list (call (Client E))).

Lemma handle_fetch_Raise (r : res response) (e : exn) :
  handle_fetch (E := E) r = Raise e →
  is_Exception e = false ∧ decode_response (E := E) r = Raise e.
Proof.
  unfold handle_fetch. destruct (decode_response r) as [v|e0]; [discriminate |].
  destruct e0; cbn; try discriminate; intros [= <-]; done.
Qed.

Lemma decode_response_Raise (r : res response) (e : exn) :
  decode_response (E := E) r = Raise e →
  r = Raise e
  ∨ ∃ resp content_str, r = Ok resp ∧ Content resp = Some content_str
      ∧ content_str ≠ "" ∧ json_loads E content_str = Raise e.
Proof.
  destruct r as [resp|e0]; cbn; [| intros [= ->]; by left].
  destruct (Content resp) as [content_str|] eqn:Hc; [| discriminate].
  destruct (String.eqb_spec content_str "") as [-> | Hne]; [discriminate |].
  intros H. right. by exists resp, content_str.
Qed.

Lemma decode_response_Ok (r : res response) (v : pyval) :
  decode_response (E := E) r = Ok v →
  v = PyNone
  ∨ ∃ resp content_str, r = Ok resp ∧ Content resp = Some content_str
      ∧ content_str ≠ "" ∧ json_loads E content_str = Ok v.
Proof.
  destruct r as [resp|e0]; cbn; [| discriminate].
  destruct (Content resp) as [content_str|] eqn:Hc; [| intros [= <-]; by left].
  destruct (String.eqb_spec content_str "") as [-> | Hne]; [intros [= <-]; by left |].
  intros H. right. by exists resp, content_str.
Qed.

Lemma handle_fetch_Ok (r : res response) (v : pyval) :
  handle_fetch (E := E) r = Ok v →
  v = PyNone
  ∨ ∃ resp content_str, r = Ok resp ∧ Content resp = Some content_str
      ∧ content_str ≠ "" ∧ json_loads E content_str = Ok v.
Proof.
  unfold handle_fetch. destruct (decode_response r) as [v0|e0] eqn:Hd.
  - intros [= <-]. by apply decode_response_Ok.
  - destruct e0; cbn; try discriminate; intros [= <-]; by left.
Qed.

Lemma classify_document_inv arn (doc_name : string) (c : Client E) st w fl st' w' :
  classify_document arn doc_name c old st w = (fl, st', w') →
  w' = (call_get_document c doc_name w).2
  ∧ (fl = Next ∧ (st' = st ∨ st' = found arn st)
     ∨ ∃ e, fl = Propagate e ∧ st' = st ∧ (e = TypeError ∨ is_Exception e = false)).
Proof.
  rewrite classify_document_eq.
  destruct (handle_fetch (call_get_document c doc_name w).1) as [v|e] eqn:Hh.
  - destruct (keep_if_outdated_spec old arn v st) as (fl1 & st1 & Hk & Hcases).
    rewrite Hk. intros [= <- <- <-]. split; [done |].
    destruct Hcases as [[-> [(_ & _ & ->) | [_ ->]]] | (e & -> & _ & Hr & ->)].
    + left. auto.
    + left. auto.
    + right. exists e. apply has_outdated_Raise_inv in Hr as [-> _]. auto.
  - intros [= <- <- <-]. split; [done |]. right. exists e.
    apply handle_fetch_Raise in Hh as [He _]. auto.
Qed.

(** The ways an iteration can go. *)
Lemma process_arn_inv arn st w fl st' w' :
  process_arn arn old st w = (fl, st', w') →
  (fl = Next ∧ st' = counted st ∧ w' = w
   ∧ (parse_arn arn = (None, None) ∨ ∃ region, parse_arn arn = (Some region, Some "")))
  ∨ ∃ region doc_name,
      parse_arn arn = (Some region, Some doc_name) ∧ doc_name ≠ ""
      ∧ ((∃ c, ssm_clients st !! region = Some c
               ∧ classify_document arn doc_name c old (counted st) w = (fl, st', w'))
         ∨ (∃ c w1, ssm_clients st !! region = None
               ∧ call_boto3_client region w = (Ok c, w1)
               ∧ classify_document arn doc_name c old (cached region c (counted st)) w1
                 = (fl, st', w'))
         ∨ (∃ e, ssm_clients st !! region = None
               ∧ call_boto3_client region w = (Raise e, w')
               ∧ st' = counted st
               ∧ fl = (if is_credentials_error e then Return false
                       else if is_Exception e then Next else Propagate e))).
Proof.
  destruct (parse_arn_cases arn) as [Hskip | (region & doc_name & Hp & Hn)].
  { rewrite process_arn_skip by done. intros [= <- <- <-]. by left. }
  rewrite (process_arn_parsed old arn region doc_name st w Hp Hn).
  intros H. right. exists region, doc_name. split; [done |]. split; [done |].
  destruct (ssm_clients st !! region) as [c|] eqn:Hc.
  { left. by exists c. }
  right. destruct (call_boto3_client region w) as [[c|e] w1] eqn:Hmk; cbn [fst snd] in H.
  - left. by exists c, w1.
  - right. exists e. by injection H as <- <- <-.
Qed.

(** *** The counters *)

Lemma process_arn_counters arn st w fl st' w' :
  process_arn arn old st w = (fl, st', w') →
  processed_count st' = S (processed_count st)
  ∧ found_count st' + length (filtered_arns st)
    = found_count st + length (filtered_arns st').
Proof.
  intros [(_ & -> & _)
         | (region & doc_name & _ & _
            & [(c & _ & H) | [(c & w1 & _ & _ & H) | (e & _ & _ & -> & _)]])]%process_arn_inv;
    [by split | | | by split].
  - apply classify_document_inv in H as (_ & [[_ [-> | ->]] | (e & _ & -> & _)]);
      cbn; rewrite ?length_app; cbn; lia.
  - apply classify_document_inv in H as (_ & [[_ [-> | ->]] | (e & _ & -> & _)]);
      cbn; rewrite ?length_app; cbn; lia.
Qed.

Lemma for_arns_counters (arns : list string) st w fl st' w' :
  for_arns arns old st w = (fl, st', w') →
  found_count st' + length (filtered_arns st)
  = found_count st + length (filtered_arns st')
  ∧ processed_count st ≤ processed_count st'
  ∧ processed_count st' ≤ processed_count st + length arns
  ∧ (arns ≠ [] → processed_count st < processed_count st')
  ∧ (fl = Next → processed_count st' = processed_count st + length arns).
Proof.
  revert st w. induction arns as [|arn rest IH]; intros st w.
  { intros [= <- <- <-]. cbn. split; [done |]. split; [done |]. split; [lia |].
    split; [done | intros _; lia]. }
  rewrite for_arns_cons.
  destruct (process_arn arn old st w) as [[fl1 st1] w1] eqn:H1.
  apply process_arn_counters in H1 as [Hp Hf].
  destruct fl1.
  - intros (? & ? & ? & _ & HN)%IH. cbn [length].
    split; [lia |]. split; [lia |]. split; [lia |].
    split; [intros _; lia | intros Hfl; specialize (HN Hfl); lia].
  - intros [= <- <- <-]. cbn [length].
    split; [lia |]. split; [lia |]. split; [lia |]. split; [intros _; lia | discriminate].
  - intros [= <- <- <-]. cbn [length].
    split; [lia |]. split; [lia |]. split; [lia |]. split; [intros _; lia | discriminate].
Qed.

(** *** The calls *)

Lemma asks_about_mono (arns arns' : list string) (ev : call (Client E)) :
  (∀ a, a ∈ arns → a ∈ arns') → asks_about arns ev → asks_about arns' ev.
Proof.
  intros Hsub (arn & region & doc_name & Hin & H). exists arn, region, doc_name. auto.
Qed.

Lemma classify_document_world arn (doc_name : string) (c : Client E) st w fl st' w' :
  classify_document arn doc_name c old st w = (fl, st', w') →
  calls w' = calls w ++ [GetDocument c doc_name] ∧ fs w' = fs w.
Proof.
  intros [-> _]%classify_document_inv.
  by destruct (call_get_document_world c doc_name w) as (-> & -> & _).
Qed.

Lemma process_arn_calls arn st w fl st' w' :
  process_arn arn old st w = (fl, st', w') →
  ∃ evs, calls w' = calls w ++ evs
    ∧ length (List.filter is_NewClient evs) ≤ 1
    ∧ length (List.filter is_GetDocument evs) ≤ 1
    ∧ Forall (asks_about [arn]) evs.
Proof.
  intros [(_ & _ & -> & _)
         | (region & doc_name & Hp & Hn
            & [(c & _ & H) | [(c & w1 & _ & Hmk & H) | (e & _ & Hmk & _)]])]%process_arn_inv.
  - exists []. rewrite app_nil_r. cbn. split; [done |]. split; [lia |]. split; [lia | done].
  - apply classify_document_world in H as [-> _].
    exists [GetDocument c doc_name]. cbn. split; [done |]. split; [lia |]. split; [lia |].
    apply Forall_singleton. exists arn, region, doc_name. by rewrite list_elem_of_singleton.
  - apply classify_document_world in H as [-> _].
    destruct (call_boto3_client_world region w) as (_ & Hcalls & _).
    rewrite Hmk in Hcalls. cbn [fst snd] in Hcalls. rewrite Hcalls, <- app_assoc.
    exists [NewClient region (Ok c); GetDocument c doc_name]. cbn.
    split; [done |]. split; [lia |]. split; [lia |].
    repeat apply Forall_cons_2; [| | done];
      exists arn, region, doc_name; by rewrite list_elem_of_singleton.
  - destruct (call_boto3_client_world region w) as (_ & Hcalls & _).
    rewrite Hmk in Hcalls. cbn [fst snd] in Hcalls. rewrite Hcalls.
    exists [NewClient region (Raise e)]. cbn. split; [done |]. split; [lia |]. split; [lia |].
    apply Forall_singleton. exists arn, region, doc_name. by rewrite list_elem_of_singleton.
Qed.

Lemma for_arns_calls (arns : list string) st w fl st' w' :
  for_arns arns old st w = (fl, st', w') →
  ∃ evs, calls w' = calls w ++ evs
    ∧ length (List.filter is_NewClient evs) ≤ length arns
    ∧ length (List.filter is_GetDocument evs) ≤ length arns
    ∧ Forall (asks_about arns) evs.
Proof.
  revert st w. induction arns as [|arn rest IH]; intros st w.
  { intros [= <- <- <-]. exists []. rewrite app_nil_r. cbn. done. }
  rewrite for_arns_cons.
  destruct (process_arn arn old st w) as [[fl1 st1] w1] eqn:H1.
  apply process_arn_calls in H1 as (evs1 & Hc1 & Hn1 & Hg1 & Ha1).
  assert (Forall (asks_about (arn :: rest)) evs1) as Ha1'.
  { eapply Forall_impl; [exact Ha1 |]. intros ev. apply asks_about_mono.
    intros a ->%list_elem_of_singleton. apply list_elem_of_here. }
  assert (∀ evs2,
            length (List.filter is_NewClient evs2) ≤ length rest →
            length (List.filter is_GetDocument evs2) ≤ length rest →
            Forall (asks_about rest) evs2 →
            length (List.filter is_NewClient (evs1 ++ evs2)) ≤ length (arn :: rest)
            ∧ length (List.filter is_GetDocument (evs1 ++ evs2)) ≤ length (arn :: rest)
            ∧ Forall (asks_about (arn :: rest)) (evs1 ++ evs2)) as Hjoin.
  { intros evs2 Hn2 Hg2 Ha2. rewrite !List.filter_app, !length_app. cbn [length].
    split; [lia |]. split; [lia |]. apply Forall_app. split; [done |].
    eapply Forall_impl; [exact Ha2 |]. intros ev. apply asks_about_mono.
    intros a Ha. by apply list_elem_of_further. }
  destruct fl1.
  - intros (evs2 & Hc2 & Hn2 & Hg2 & Ha2)%IH. exists (evs1 ++ evs2).
    split; [by rewrite Hc2, Hc1, app_assoc |]. by apply Hjoin.
  - intros [= <- <- <-]. exists evs1. split; [done |].
    specialize (Hjoin [] ltac:(cbn; lia) ltac:(cbn; lia) ltac:(done)).
    by rewrite app_nil_r in Hjoin.
  - intros [= <- <- <-]. exists evs1. split; [done |].
    specialize (Hjoin [] ltac:(cbn; lia) ltac:(cbn; lia) ltac:(done)).
    by rewrite app_nil_r in Hjoin.
Qed.

(** *** How the loop stops *)





(** *** The output file *)

Lemma write_output_inv (output_file text : string) w (r : res bool) w' :
  write_output output_file text w = (r, w') →
  (output_file ∈ fs_denied (fs w) ∧ r = Ok false ∧ w' = w)
  ∨ ((output_file ∉ fs_denied (fs w)) ∧ r = Ok true
     ∧ calls w' = calls w ∧ service w' = service w
     ∧ fs_denied (fs w') = fs_denied (fs w)
     ∧ fs_data (fs w') = <[output_file := text]> (fs_data (fs w))).
Proof.
  destruct (decide (output_file ∈ fs_denied (fs w))) as [Hd | Hd].
  - rewrite write_output_denied by done. intros [= <- <-]. by left.
  - unfold write_output, write_text. rewrite bool_decide_eq_false_2 by done.
    intros [= <- <-]. right. done.
Qed.

(** A run ends before the loop, or with the loop and what follows it. *)
Lemma filter_ssm_documents_inv (input_file output_file : string) w (r : res bool) w' :
  filter_ssm_documents input_file output_file old w = (r, w') →
  (BOTO3_AVAILABLE E = false ∧ r = Ok false ∧ w' = w)
  ∨ BOTO3_AVAILABLE E = true
    ∧ ((input_file ∈ fs_denied (fs w) ∧ r = Raise PermissionError ∧ w' = w)
       ∨ ((input_file ∉ fs_denied (fs w)) ∧ fs_data (fs w) !! input_file = None
          ∧ r = Ok false ∧ w' = w)
       ∨ ∃ text fl st1 w1,
           (input_file ∉ fs_denied (fs w))
           ∧ fs_data (fs w) !! input_file = Some text
           ∧ for_arns (arns_of_lines (text_lines (universal_newlines text))) old
               initial_locals w = (fl, st1, w1)
           ∧ match fl with
             | Next => write_output output_file (output_text (filtered_arns st1)) w1
                       = (r, w')
             | Return b => r = Ok b ∧ w' = w1
             | Propagate e => r = Raise e ∧ w' = w1
             end).
Proof.
  unfold filter_ssm_documents.
  destruct (BOTO3_AVAILABLE E); cbn [negb]; [| intros [= <- <-]; by left].
  intros H. right. split; [done |].
  destruct (read_lines_inv input_file (fs w))
    as [[Hd Hr] | [(Hd & Hnone & Hr) | (Hd & text & Hsome & Hr)]];
    rewrite Hr in H.
  - left. by injection H as <- <-.
  - right. left. by injection H as <- <-.
  - right. right.
    destruct (arns_of_lines (text_lines (universal_newlines text))) as [|arn arns] eqn:Harns.
    { exists text, Next, initial_locals, w. split; [done |]. split; [done |].
      split; [by rewrite Harns | exact H]. }
    destruct (for_arns (arn :: arns) old initial_locals w) as [[fl st1] w1] eqn:Hloop.
    exists text, fl, st1, w1. split; [done |]. split; [done |].
    split; [by rewrite Harns |].
    destruct fl; [done | by injection H as <- <- ..].
Qed.

End Iterations.

(** ** What a fetch, the loop and a run do, and what they never do *)

Lemma read_lines_Some (path text : string) (fs : FS) :
  path ∉ fs_denied fs → fs_data fs !! path = Some text →
  read_lines path fs = Ok (text_lines (universal_newlines text)).
Proof.
  intros Hd Hsome. unfold read_lines. by rewrite bool_decide_eq_false_2, Hsome.
Qed.

Section Runs.
Context {E : Env} (old : list string).
Implicit Types (st : locals (Client E)) (w : world E) (arn region : string).



(** X6: a fetch makes one call, [get_document], and leaves the files
    as they are. It lets no [Exception] out: an error it raises is one
    that the call or [json.loads] raised and that is no [Exception]. What
    it returns is [None], or what [json.loads] made of a body that is not
    empty. *)
Theorem get_document_content_contract (ssm_client : Client E) (document_name : string)
    w (r : res pyval) w' :
  get_document_content ssm_client document_name w = (r, w') →
  calls w' = calls w ++ [GetDocument ssm_client document_name]
  ∧ fs w' = fs w
  ∧ match r with
    | Raise e =>
        is_Exception e = false
        ∧ ((ssm_get_document E ssm_client document_name (service w)).1 = Raise e
           ∨ ∃ resp content_str,
               (ssm_get_document E ssm_client document_name (service w)).1 = Ok resp
               ∧ Content resp = Some content_str ∧ content_str ≠ ""
               ∧ json_loads E content_str = Raise e)
    | Ok document_content =>
        document_content = PyNone
        ∨ ∃ resp content_str,
            (ssm_get_document E ssm_client document_name (service w)).1 = Ok resp
            ∧ Content resp = Some content_str ∧ content_str ≠ ""
            ∧ json_loads E content_str = Ok document_content
    end.
Proof.
  unfold get_document_content.
  destruct (call_get_document_world ssm_client document_name w) as (Hfs & Hcalls & Hr).
  destruct (call_get_document ssm_client document_name w) as [r0 w0]. cbn [fst snd] in *.
  intros [= <- <-]. split; [done |]. split; [done |]. rewrite <- Hr.
  destruct (handle_fetch r0) as [v|e] eqn:Hh.
  - by apply handle_fetch_Ok.
  - apply handle_fetch_Raise in Hh as [He Hd]. split; [done |].
    by apply decode_response_Raise.
Qed.

(** X7: the two counters of the summary follow the lists: the number of
    documents found is the length of the list that is written, and the
    number processed is the number of lines the loop has taken up, skipped
    lines included: all of them when the loop comes to its end. *)
Theorem counters_agree_with_the_lists (arns : list string) w fl st' w' :
  for_arns arns old initial_locals w = (fl, st', w') →
  found_count st' = length (filtered_arns st')
  ∧ processed_count st' ≤ length arns
  ∧ (arns ≠ [] → 1 ≤ processed_count st')
  ∧ (fl = Next → processed_count st' = length arns).
Proof.
  intros (Hf & _ & Hle & Hne & HN)%for_arns_counters. cbn in *.
  split; [lia |]. split; [lia |].
  split; [intros H; specialize (Hne H); lia | intros H; specialize (HN H); lia].
Qed.


(** X9: what comes before the input is read. Without [boto3] the run
    returns [False] whatever the files are. With it, an input file that
    cannot be opened lets [PermissionError] out, since only
    [FileNotFoundError] is caught, and an input file that is not there
    gives [False]. In all three nothing is called and nothing is written:
    the output file is not made. *)
Theorem run_without_input (input_file output_file : string) w :
  (BOTO3_AVAILABLE E = false →
     filter_ssm_documents input_file output_file old w = (Ok false, w))
  ∧ (BOTO3_AVAILABLE E = true → input_file ∈ fs_denied (fs w) →
       filter_ssm_documents input_file output_file old w = (Raise PermissionError, w))
  ∧ (BOTO3_AVAILABLE E = true → input_file ∉ fs_denied (fs w) →
       fs_data (fs w) !! input_file = None →
       filter_ssm_documents input_file output_file old w = (Ok false, w)).
Proof.
  unfold filter_ssm_documents, read_lines. split; [by intros -> |]. split.
  - intros -> Hd. by rewrite bool_decide_eq_true_2.
  - intros -> Hd Hnone. by rewrite bool_decide_eq_false_2, Hnone.
Qed.

(** X10: a run calls the service about the lines of its input only:
    every client is made for the region of a line that parses with a
    name, every document fetched is one that such a line names, and there
    are no more constructions and no more fetches than lines. *)
Theorem run_asks_only_about_its_input (input_file output_file : string) w
    (r : res bool) w' :
  filter_ssm_documents input_file output_file old w = (r, w') →
  ∃ evs, calls w' = calls w ++ evs
    ∧ (∀ ev, ev ∈ evs →
         ∃ lines, read_lines input_file (fs w) = Ok lines
                  ∧ asks_about (arns_of_lines lines) ev)
    ∧ (∀ lines, read_lines input_file (fs w) = Ok lines →
         length (List.filter is_NewClient evs) ≤ length (arns_of_lines lines)
         ∧ length (List.filter is_GetDocument evs) ≤ length (arns_of_lines lines)).
Proof.
  assert (∀ w, ∃ evs : list (call (Client E)), calls w = calls w ++ evs
            ∧ (∀ ev, ev ∈ evs →
                 ∃ lines, read_lines input_file (fs w) = Ok lines
                          ∧ asks_about (arns_of_lines lines) ev)
            ∧ (∀ lines, read_lines input_file (fs w) = Ok lines →
                 length (List.filter is_NewClient evs) ≤ length (arns_of_lines lines)
                 ∧ length (List.filter is_GetDocument evs) ≤ length (arns_of_lines lines)))
    as Hnone.
  { intros w0. exists []. rewrite app_nil_r. split; [done |].
    split; [by intros ev ?%elem_of_nil | intros lines _; cbn; lia]. }
  intros [(_ & -> & ->)
         | [_ [(_ & -> & ->)
              | [(_ & _ & -> & ->)
                | (text & fl & st1 & w1 & Hd & Hsome & Hloop & Hend)]]]]%filter_ssm_documents_inv;
    [apply Hnone .. |].
  pose proof (read_lines_Some _ _ _ Hd Hsome) as Hread.
  apply for_arns_calls in Hloop as (evs & Hcalls & Hn & Hg & Hasks).
  exists evs. split.
  { destruct fl as [|b|e].
    - by apply write_output_inv in Hend as [(_ & _ & ->) | (_ & _ & -> & _)].
    - by destruct Hend as [_ ->].
    - by destruct Hend as [_ ->]. }
  split.
  - intros ev Hev. eexists. split; [exact Hread |].
    by eapply Forall_forall in Hasks.
  - intros lines. rewrite Hread. by intros [= <-].
Qed.



End Runs.

Lemma get_document_content_contract_witness :
  calls (get_document_content (E := Fixture.healthy) "us-east-1" "MyDoc" Scenario.start).2
  = calls Scenario.start ++ [GetDocument "us-east-1" "MyDoc"].
Proof.
  apply (get_document_content_contract (E := Fixture.healthy) "us-east-1" "MyDoc"
           Scenario.start (Ok (script_document "python3.7"))
           (get_document_content (E := Fixture.healthy) "us-east-1" "MyDoc"
              Scenario.start).2).
  vm_compute. reflexivity.
Defined.

Lemma counters_agree_with_the_lists_witness :
  processed_count
    (for_arns (E := Fixture.healthy) Scenario.lines DEFAULT_OLD_RUNTIMES initial_locals
       Scenario.start).1.2
  = length Scenario.lines.
Proof.
  apply (counters_agree_with_the_lists (E := Fixture.healthy) DEFAULT_OLD_RUNTIMES
           Scenario.lines Scenario.start Next
           (for_arns (E := Fixture.healthy) Scenario.lines DEFAULT_OLD_RUNTIMES
              initial_locals Scenario.start).1.2
           (for_arns (E := Fixture.healthy) Scenario.lines DEFAULT_OLD_RUNTIMES
              initial_locals Scenario.start).2).
  - vm_compute. reflexivity.
  - reflexivity.
Defined.


Lemma run_without_input_witness :
  filter_ssm_documents Fixture.input_file Fixture.output_file DEFAULT_OLD_RUNTIMES
    Scenario.no_input
  = (Ok false, Scenario.no_input).
Proof.
  apply (run_without_input (E := Fixture.healthy) DEFAULT_OLD_RUNTIMES
           Fixture.input_file Fixture.output_file Scenario.no_input).
  - reflexivity.
  - apply not_elem_of_empty.
  - apply lookup_empty.
Defined.

Lemma run_asks_only_about_its_input_witness :
  ∃ evs,
    calls (filter_ssm_documents Fixture.input_file Fixture.output_file
             DEFAULT_OLD_RUNTIMES Scenario.start).2
    = calls Scenario.start ++ evs
    ∧ (∀ ev, ev ∈ evs →
         ∃ lines, read_lines Fixture.input_file (fs Scenario.start) = Ok lines
                  ∧ asks_about (arns_of_lines lines) ev)
    ∧ (∀ lines, read_lines Fixture.input_file (fs Scenario.start) = Ok lines →
         length (List.filter is_NewClient evs) ≤ length (arns_of_lines lines)
         ∧ length (List.filter is_GetDocument evs) ≤ length (arns_of_lines lines)).
Proof.
  apply (run_asks_only_about_its_input (E := Fixture.healthy) DEFAULT_OLD_RUNTIMES
           Fixture.input_file Fixture.output_file Scenario.start (Ok true)
           (filter_ssm_documents Fixture.input_file Fixture.output_file
              DEFAULT_OLD_RUNTIMES Scenario.start).2).
  vm_compute. reflexivity.
Defined.



(** ** The output file, read again *)

Section Output.
Context {E : Env} (old : list string).
Implicit Types (st : locals (Client E)) (w : world E) (arn region : string).

(** A run that returns [True] has read its input, gone through the loop
    and written the results. *)
Lemma filter_ssm_documents_True_inv (input_file output_file : string) w w' :
  filter_ssm_documents input_file output_file old w = (Ok true, w') →
  BOTO3_AVAILABLE E = true
  ∧ ∃ text st1 w1,
      fs_data (fs w) !! input_file = Some text
      ∧ for_arns (arns_of_lines (text_lines (universal_newlines text))) old
          initial_locals w = (Next, st1, w1)
      ∧ (output_file ∉ fs_denied (fs w'))
      ∧ fs_denied (fs w') = fs_denied (fs w)
      ∧ fs_data (fs w') = <[output_file := output_text (filtered_arns st1)]> (fs_data (fs w)).
Proof.
  intros [(_ & ? & _)
         | [Hb [(_ & ? & _)
               | [(_ & _ & ? & _)
                 | (text & fl & st1 & w1 & _ & Hsome & Hloop & Hend)]]]]%filter_ssm_documents_inv;
    [done .. |].
  split; [done |]. exists text, st1, w1.
  pose proof (for_arns_fs old _ _ _ _ _ _ Hloop) as Hfs.
  destruct fl as [|b|e].
  - apply write_output_inv in Hend as [(_ & ? & _) | (Hd & _ & _ & _ & Hden & Hdata)];
      [done |].
    rewrite Hden, Hdata, Hfs. by rewrite Hfs in Hd.
  - destruct Hend as [[= <-] _]. by apply for_arns_Return in Hloop.
  - by destruct Hend as [? _].
Qed.

(** The lines the loop keeps are whole ARNs on one line. *)
Lemma for_arns_kept (text : string) w fl st' w' :
  for_arns (arns_of_lines (text_lines (universal_newlines text))) old initial_locals w
  = (fl, st', w') →
  Forall (fun a => clean_line a ∧ whole_arn a) (filtered_arns st').
Proof.
  intros Hloop. apply Forall_forall. intros a Ha.
  destruct (for_arns_filtered old _ _ _ _ _ _ Hloop a Ha)
    as [Hnil | (Hin & region & doc_name & Hp & Hn)]; [by apply elem_of_nil in Hnil |].
  pose proof (arns_of_lines_clean text a Hin) as Hclean. split; [done |].
  destruct Hclean as (_ & _ & _ & Hlf & _).
  destruct (parse_arn_no_line_feed a Hlf)
    as [Hnone | (region' & account & name & Hp' & -> & Hr & Hacc)]; [congruence |].
  exists region', account, name. split; [done |]. split; [done |]. split; [done |].
  congruence.
Qed.

End Output.

(** X11: the output file of a run is an input file: read again in text
    mode, line by line and stripped, it gives the lines that were kept,
    as they were written; and each of them is the whole of an ARN with a
    region, an account and a document name that are not empty. *)
Theorem output_is_an_input (E : Env) (old : list string)
    (input_file output_file : string) (w w' : world E) :
  filter_ssm_documents input_file output_file old w = (Ok true, w') →
  ∃ kept lines,
    fs_data (fs w') !! output_file = Some (output_text kept)
    ∧ read_lines output_file (fs w') = Ok lines
    ∧ arns_of_lines lines = kept
    ∧ Forall whole_arn kept.
Proof.
  intros (_ & text & st1 & w1 & _ & Hloop & Hd & _ & Hdata)%filter_ssm_documents_True_inv.
  apply for_arns_kept in Hloop.
  assert (fs_data (fs w') !! output_file = Some (output_text (filtered_arns st1))) as Hout
    by (by rewrite Hdata, lookup_insert_eq).
  exists (filtered_arns st1). eexists. split; [done |].
  split; [by apply read_lines_Some |]. split.
  - apply arns_of_output_text. eapply Forall_impl; [exact Hloop |]. by intros a [? _].
  - eapply Forall_impl; [exact Hloop |]. by intros a [_ ?].
Qed.

Lemma output_is_an_input_witness :
  ∃ kept lines,
    fs_data (fs (filter_ssm_documents Fixture.input_file Fixture.output_file
                   DEFAULT_OLD_RUNTIMES Scenario.start).2) !! Fixture.output_file
    = Some (output_text kept)
    ∧ read_lines Fixture.output_file
        (fs (filter_ssm_documents Fixture.input_file Fixture.output_file
               DEFAULT_OLD_RUNTIMES Scenario.start).2)
      = Ok lines
    ∧ arns_of_lines lines = kept
    ∧ Forall whole_arn kept.
Proof.
  apply (output_is_an_input Fixture.healthy DEFAULT_OLD_RUNTIMES
           Fixture.input_file Fixture.output_file Scenario.start).
  vm_compute. reflexivity.
Defined.

Section Again.
Context {E : Env} (old : list string) (Hs : stateless E).
Implicit Types (st : locals (Client E)) (w : world E) (arn region : string).

(** On lines whose documents are all classified outdated the loop comes
    to its end and keeps every line. *)
Lemma for_arns_all_outdated (s : Service E) (arns : list string) st w :
  cache_of_service (ssm_clients st) →
  Forall (fun a => classified_outdated s old a = true) arns →
  ∃ st' w', for_arns arns old st w = (Next, st', w')
    ∧ filtered_arns st' = filtered_arns st ++ arns.
Proof.
  intros Hcache Hall. revert st w Hcache.
  induction Hall as [|arn rest Harn _ IH]; intros st w Hcache.
  { exists st, w. by rewrite app_nil_r. }
  apply (classified_iff_fetched old Hs s arn st w Hcache) in Harn.
  destruct (fetched_outdated_kept old arn st w Harn) as (st1 & w2 & Hf & H1).
  pose proof (process_arn_cache_of_service old Hs _ _ _ _ _ _ Hcache H1) as Hcache1.
  destruct (IH (found arn st1) w2 Hcache1) as (st' & w' & Hloop & Hkept).
  exists st', w'. rewrite (for_arns_Next old arn rest st w _ _ H1).
  split; [done |]. rewrite Hkept. cbn. by rewrite Hf, <- app_assoc.
Qed.

End Again.

(** X12: filtering is idempotent. When the answers of the service do
    not depend on its state, a second run that takes the output file of a
    run as its input keeps every line: it returns [True] and writes the
    same text. *)
Theorem filtering_the_output_keeps_it (E : Env) (old : list string)
    (input_file output_file output_file' : string) (w w' : world E) :
  stateless E →
  filter_ssm_documents input_file output_file old w = (Ok true, w') →
  output_file' ∉ fs_denied (fs w') →
  ∃ w'',
    filter_ssm_documents output_file output_file' old w' = (Ok true, w'')
    ∧ fs_data (fs w'') !! output_file' = fs_data (fs w') !! output_file.
Proof.
  intros Hs (Hb & text & st1 & w1 & _ & Hloop & Hd & _ & Hdata)%filter_ssm_documents_True_inv
    Hd'.
  assert (cache_of_service (ssm_clients (initial_locals (E := E)))) as Hcache
    by (intros region c s' Hc; cbn in Hc; by rewrite lookup_empty in Hc).
  pose proof (for_arns_kept old _ _ _ _ _ Hloop) as Hkept.
  pose proof (for_arns_classified old Hs (service w) _ _ _ _ _ Hcache Hloop) as Hclass.
  cbn [filtered_arns initial_locals app] in Hclass.
  assert (fs_data (fs w') !! output_file = Some (output_text (filtered_arns st1))) as Hout
    by (by rewrite Hdata, lookup_insert_eq).
  assert (Forall (fun a => classified_outdated (service w) old a = true) (filtered_arns st1))
    as Hall.
  { rewrite Hclass. apply Forall_forall. intros a [Ha _]%list_elem_of_filter.
    by apply Is_true_true. }
  assert (arns_of_lines (text_lines (universal_newlines (output_text (filtered_arns st1))))
          = filtered_arns st1) as Harns.
  { apply arns_of_output_text. eapply Forall_impl; [exact Hkept |]. by intros a [? _]. }
  rewrite Hout. unfold filter_ssm_documents.
  rewrite Hb, (read_lines_Some _ _ _ Hd Hout), Harns. cbn [negb].
  destruct (filtered_arns st1) as [|arn rest] eqn:Hlist.
  { destruct (write_output_ok output_file' "" w' Hd') as (w'' & Hw & Htext & _).
    exists w''. by rewrite Hw. }
  destruct (for_arns_all_outdated old Hs (service w) (arn :: rest) initial_locals w'
              Hcache Hall) as (st2 & w2 & Hloop2 & Hkept2).
  rewrite Hloop2. cbn [filtered_arns initial_locals app] in Hkept2. rewrite Hkept2.
  pose proof (for_arns_fs old _ _ _ _ _ _ Hloop2) as Hfs2.
  destruct (write_output_ok output_file' (output_text (arn :: rest)) w2)
    as (w'' & Hw & Htext & _); [by rewrite Hfs2 |].
  exists w''. by rewrite Hw.
Qed.

Lemma filtering_the_output_keeps_it_witness :
  ∃ w'',
    filter_ssm_documents Fixture.output_file "again.txt" DEFAULT_OLD_RUNTIMES
      (filter_ssm_documents Fixture.input_file Fixture.output_file
         DEFAULT_OLD_RUNTIMES Scenario.start).2
    = (Ok true, w'')
    ∧ fs_data (fs w'') !! "again.txt"
      = fs_data (fs (filter_ssm_documents Fixture.input_file Fixture.output_file
                       DEFAULT_OLD_RUNTIMES Scenario.start).2) !! Fixture.output_file.
Proof.
  apply (filtering_the_output_keeps_it Fixture.healthy DEFAULT_OLD_RUNTIMES
           Fixture.input_file Fixture.output_file "again.txt" Scenario.start).
  - split; intros; reflexivity.
  - vm_compute. reflexivity.
  - apply not_elem_of_empty.
Defined.

(** ** The command line *)

Lemma split_on_no_sep (sep : ascii) (s : string) :
  Forall (fun piece => occurs sep piece = false) (split_on sep s).
Proof.
  induction s as [|c s IH]; cbn [split_on]; [by repeat constructor |].
  destruct (Ascii.eqb c sep) eqn:Hc; [by constructor |].
  destruct (split_on sep s) as [|piece pieces]; [by repeat constructor; cbn; rewrite Hc |].
  apply Forall_cons in IH as [Hpiece Hpieces]. constructor; [| done].
  cbn [occurs]. by rewrite Hc, Hpiece.
Qed.

Lemma split_on_piece (sep : ascii) (a : string) :
  occurs sep a = false → split_on sep a = [a].
Proof.
  induction a as [|c a IH]; cbn [split_on occurs]; [done |].
  intros [Hc Ha]%orb_false_elim. by rewrite Hc, (IH Ha).
Qed.

Lemma split_on_append (sep : ascii) (a t : string) :
  occurs sep a = false →
  split_on sep (a +:+ String sep t) = a :: split_on sep t.
Proof.
  induction a as [|c a IH]; str_simpl; cbn [split_on occurs].
  - intros _. by rewrite Ascii.eqb_refl.
  - intros [Hc Ha]%orb_false_elim. by rewrite Hc, (IH Ha).
Qed.

Lemma split_on_join (sep : ascii) (l : list string) :
  l ≠ [] → Forall (fun a => occurs sep a = false) l →
  split_on sep (join (String sep "") l) = l.
Proof.
  intros Hne Hl. induction Hl as [|a l Ha Hl IH]; [done |].
  destruct l as [|b l]; [by apply split_on_piece |].
  change (join (String sep "") (a :: b :: l))
    with (a +:+ String sep "" +:+ join (String sep "") (b :: l)).
  rewrite append_String, append_nil_l, split_on_append by done. by rewrite IH.
Qed.

Lemma strip_runtime_entry (piece : string) :
  occurs "," piece = false → strip piece ≠ "" → runtime_entry (strip piece).
Proof.
  intros Hc Hne. split; [done |]. split; [| split].
  - unfold strip. apply rstrip_first, lstrip_first.
  - apply rstrip_last.
  - destruct (occurs "," (strip piece)) eqn:Ho; [| done].
    apply occurs_strip in Ho. congruence.
Qed.

Lemma strip_entries (l : list string) :
  Forall runtime_entry l → filter (fun rt : string => rt ≠ "") (strip <$> l) = l.
Proof.
  induction 1 as [|b l (Hne & Hf & Hlast & _) _ IH]; [done |].
  rewrite fmap_cons, (strip_id b Hf Hlast), filter_cons_True by done. by rewrite IH.
Qed.

(** X15: the denylist made from [--old-runtimes] holds entries that are
    not empty, have no whitespace at either end and no comma; and a list
    of such entries, joined with commas, gives itself back: the step is
    the inverse of the join that makes the default of the option. *)
Theorem parse_old_runtimes_spec (old_runtimes : string) :
  Forall runtime_entry (parse_old_runtimes old_runtimes)
  ∧ (∀ l, Forall runtime_entry l → old_runtimes = join "," l →
          parse_old_runtimes old_runtimes = l).
Proof.
  split.
  - unfold parse_old_runtimes. apply Forall_forall.
    intros rt [Hne (piece & -> & Hin)%list_elem_of_fmap]%list_elem_of_filter.
    apply strip_runtime_entry; [| done].
    by eapply Forall_forall in Hin; [| apply split_on_no_sep].
  - intros l Hl ->. unfold parse_old_runtimes.
    destruct l as [|a l]; [reflexivity |].
    rewrite split_on_join;
      [| done | eapply Forall_impl; [exact Hl |]; by intros ? (_ & _ & _ & ?)].
    by apply strip_entries.
Qed.

Lemma parse_old_runtimes_spec_witness :
  parse_old_runtimes (Cli.old_runtimes Cli.defaults) = DEFAULT_OLD_RUNTIMES.
Proof.
  apply (proj2 (parse_old_runtimes_spec (Cli.old_runtimes Cli.defaults))
           DEFAULT_OLD_RUNTIMES).
  - repeat constructor; discriminate.
  - reflexivity.
Defined.


